(** * matminer composition descriptors: a shallow embedding

    The development follows [matminer/descriptors/composition.py]:
    the four featurizers ([StoichiometricAttribute], [ElementalAttribute],
    [ValenceOrbitalAttribute], [IonicAttribute]), the per-atom series
    builder [get_pymatgen_descriptor] and the formula splitter
    [get_composition_oxidation_state].

    Conventions.
    - Python exceptions are values of [exn]; a computation that may raise
      has type [result A].
    - Python floats that are only added, multiplied, divided and compared
      are exact rationals ([Q]); the two places where the source leaves
      the rationals ([np.exp], [** (1.0 / p)]) are real numbers ([R]).
      Rounding is not modelled: a property that rounding could break (an
      exact zero test, a bound that only exact arithmetic attains) is
      stated for whole amounts, on which the arithmetic of doubles is
      exact.
    - [set(l)] is iterated in an order the interpreter decides; that order
      is a parameter, [set_iter].
    - Python strings are [string]s of ASCII characters.
    - A [dict] is an association list in insertion order. *)

From Stdlib Require Import List Bool Arith ZArith QArith Qround Qabs Qpower Lia Lqa.
From Stdlib Require Import String Ascii DecimalString DecimalZ DecimalPos.
From Stdlib Require Import Reals Qreals Lra.
From Stdlib Require Import Permutation Sorted.
Import ListNotations.

Set Implicit Arguments.

(** ** Exceptions and results *)

Inductive exn : Type :=
| ValueError (msg : string)
| IndexError
| KeyError
| TypeError
| AttributeError
| LookupError
| ZeroDivisionError
| CompositionError.

Inductive result (A : Type) : Type :=
| Ok (a : A)
| Raise (e : exn).

Arguments Ok {A} a.
Arguments Raise {A} e.

Definition bind {A B : Type} (r : result A) (k : A -> result B) : result B :=
  match r with
  | Ok a => k a
  | Raise e => Raise e
  end.

Declare Scope py_scope.
Delimit Scope py_scope with py.
Notation "x <- r ;; k" := (bind r (fun x => k))
  (at level 61, r at next level, right associativity) : py_scope.
Notation "' p <- r ;; k" := (bind r (fun p => k))
  (at level 61, p pattern, r at next level, right associativity) : py_scope.
Open Scope py_scope.

(** [for x in xs: acc = body(acc, x)], stopping at the first exception. *)
Fixpoint for_each {A S : Type} (body : S -> A -> result S) (xs : list A) (acc : S)
  : result S :=
  match xs with
  | [] => Ok acc
  | x :: xs' => acc' <- body acc x ;; for_each body xs' acc'
  end.

(** ** Python strings *)

Module PyStr.

Local Open Scope string_scope.
Local Open Scope char_scope.

Definition is_digit (c : ascii) : bool :=
let n := nat_of_ascii c in (48 <=? n)%nat && (n <=? 57)%nat.

(** [[a-z]] under [re.IGNORECASE], on ASCII input. *)
Definition is_alpha (c : ascii) : bool :=
let n := nat_of_ascii c in
((65 <=? n)%nat && (n <=? 90)%nat) || ((97 <=? n)%nat && (n <=? 122)%nat).

(** [[+-]] *)
Definition is_sign (c : ascii) : bool :=
match c with
| "+" | "-" => true
| _ => false
end.

(** The characters [str.strip()] removes: [\t \n \v \f \r], [\x1c]-[\x1f]
  and the space. *)
Definition is_space (c : ascii) : bool :=
let n := nat_of_ascii c in
((9 <=? n)%nat && (n <=? 13)%nat) || ((28 <=? n)%nat && (n <=? 32)%nat).

Fixpoint rev_acc (s acc : string) : string :=
match s with
| EmptyString => acc
| String c s' => rev_acc s' (String c acc)
end.

Definition rev (s : string) : string := rev_acc s EmptyString.

Fixpoint lstrip (s : string) : string :=
match s with
| String c s' => if is_space c then lstrip s' else s
| EmptyString => EmptyString
end.

(** [s.strip()] *)
Definition strip (s : string) : string := rev (lstrip (rev (lstrip s))).

(** [c in s] for a one-character string [c]. *)
Fixpoint contains (c : ascii) (s : string) : bool :=
match s with
| EmptyString => false
| String d s' => Ascii.eqb c d || contains c s'
end.

(** [re.split(cls+, s)] for a character class [cls]: the pieces of [s]
  between the maximal non-empty runs of class characters.  [cur] is the
  current piece, reversed; [in_run] tells that the previous character
  belonged to a run. *)
Fixpoint re_split_runs_aux (cls : ascii -> bool) (s cur : string) (in_run : bool)
: list string :=
match s with
| EmptyString => [rev cur]
| String c s' =>
    if cls c then
      if in_run then re_split_runs_aux cls s' cur true
      else rev cur :: re_split_runs_aux cls s' EmptyString true
    else re_split_runs_aux cls s' (String c cur) false
end.

Definition re_split_runs (cls : ascii -> bool) (s : string) : list string :=
re_split_runs_aux cls s EmptyString false.

(** [re.split(cls, s)]: every class character is a separator of its own. *)
Fixpoint re_split_each_aux (cls : ascii -> bool) (s cur : string) : list string :=
match s with
| EmptyString => [rev cur]
| String c s' =>
    if cls c then rev cur :: re_split_each_aux cls s' EmptyString
    else re_split_each_aux cls s' (String c cur)
end.

Definition re_split_each (cls : ascii -> bool) (s : string) : list string :=
re_split_each_aux cls s EmptyString.

(** [s.startswith(p)], returning the rest of [s] after [p]. *)
Fixpoint strip_prefix (p s : string) : option string :=
match p, s with
| EmptyString, _ => Some s
| String a p', String b s' => if Ascii.eqb a b then strip_prefix p' s' else None
| String _ _, EmptyString => None
end.

(** [s.split(sep, 1)] for a non-empty [sep]: [Some (before, after)] around
  the leftmost occurrence of [sep], [None] when [sep] does not occur (the
  one-element list Python returns then). *)
Fixpoint split_once (sep s : string) : option (string * string) :=
match strip_prefix sep s with
| Some rest => Some (EmptyString, rest)
| None =>
    match s with
    | EmptyString => None
    | String c s' =>
        match split_once sep s' with
        | Some (before, rest) => Some (String c before, rest)
        | None => None
        end
    end
end.

Definition digit_value (c : ascii) : Z := Z.of_nat (nat_of_ascii c - 48).

Fixpoint all_digits (s : string) : bool :=
match s with
| EmptyString => true
| String c s' => is_digit c && all_digits s'
end.

Fixpoint digits_value (s : string) (acc : Z) : Z :=
match s with
| EmptyString => acc
| String c s' => digits_value s' (10 * acc + digit_value c)%Z
end.

Definition parse_digits (s : string) : result Z :=
match s with
| EmptyString => Raise (ValueError "invalid literal for int()")
| _ => if all_digits s then Ok (digits_value s 0%Z)
       else Raise (ValueError "invalid literal for int()")
end.

(** [int(s)]: surrounding whitespace, one optional sign, decimal digits. *)
Definition int_of_string (s : string) : result Z :=
match strip s with
| String "+" d => parse_digits d
| String "-" d => z <- parse_digits d ;; Ok (- z)%Z
| d => parse_digits d
end.

(** ["%d" % z] *)
Definition format_d (z : Z) : string := NilZero.string_of_int (Z.to_int z).

(** [xs[-1]] *)
Definition last_item (xs : list string) : result string :=
match List.rev xs with
| x :: _ => Ok x
| [] => Raise IndexError
end.

End PyStr.

(** ** Dictionaries and compositions *)

Section Dict.
Context {V : Type}.

(** [d[k] = v]: an existing key keeps its place, a new key goes last. *)
Fixpoint dict_set (k : string) (v : V) (d : list (string * V)) : list (string * V) :=
  match d with
  | [] => [(k, v)]
  | (k', v') :: d' =>
      if String.eqb k k' then (k', v) :: d' else (k', v') :: dict_set k v d'
  end.

(** [d[k]] *)
Fixpoint dict_get (k : string) (d : list (string * V)) : result V :=
  match d with
  | [] => Raise KeyError
  | (k', v) :: d' => if String.eqb k k' then Ok v else dict_get k d'
  end.

Definition keys (d : list (string * V)) : list string := map fst d.
Definition values (d : list (string * V)) : list V := map snd d.
End Dict.

(** What the featurizers observe of a pymatgen [Composition]:
    - [elements]: [composition.elements], each with its symbol and, for an
      oxidation-state decorated species, its [oxi_state];
    - [el_amt]: [get_el_amt_dict()], in iteration order;
    - [num_atoms]: the [num_atoms] property. *)
Record Composition : Type := mkComposition {
  elements : list (string * option Z);
  el_amt : list (string * Q);
  num_atoms : Q
}.

Definition Qsum (l : list Q) : Q := fold_left Qplus l 0.

(** The invariants pymatgen keeps: distinct symbols, positive amounts,
    [num_atoms] the total amount. *)
Record valid_composition (c : Composition) : Prop := {
  valid_keys : NoDup (keys (el_amt c));
  valid_amounts : Forall (fun a => 0 < a) (values (el_amt c));
  valid_num_atoms : num_atoms c == Qsum (values (el_amt c))
}.

(** ** The formula splitter *)

Section FormulaParser.
Import PyStr.
Local Open Scope string_scope.

(** pymatgen's [Composition(formula)] and [str(Element(symbol))]. *)
Variable Composition_of_formula : string -> result Composition.
Variable Element : string -> result string.

(** The body of the loop over [non_alphabets]: the annotation recorded
    for one segment, if any. *)
Definition segment_oxidation_state (na : string) : result (option string) :=
  let s := strip na in
  if negb (s =? "") && (contains "+" s || contains "-" s) then
    let digits := re_split_runs is_sign s in
    let sign_tmp := re_split_runs is_digit s in
    let sign := filter (fun x => negb (x =? "")) (map strip sign_tmp) in
    sg <- last_item sign ;;
    dg <- last_item digits ;;
    Ok (Some (sg ++ strip dg))
  else Ok None.

Definition collect_oxidation_states (non_alphabets : list string)
  : result (list string) :=
  for_each (fun acc na =>
              o <- segment_oxidation_state na ;;
              Ok (match o with Some oxs => (acc ++ [oxs])%list | None => acc end))
           non_alphabets [].

(** [before, after = tuple(after.split(oxs, 1))] *)
Definition split_around (oxs after : string) : result (string * string) :=
  if oxs =? "" then Raise (ValueError "empty separator")
  else match split_once oxs after with
       | Some ba => Ok ba
       | None => Raise (ValueError "need more than 1 value to unpack")
       end.

(** The fragments of the formula left of each annotation, in turn. *)
Fixpoint plain_fragments (after : string) (oxidation_states : list string)
  : result (list string) :=
  match oxidation_states with
  | [] => Ok []
  | oxs :: rest =>
      '(before, after') <- split_around oxs after ;;
      fr <- plain_fragments after' rest ;;
      Ok (before :: fr)
  end.

Definition first_item (xs : list string) : result string :=
  match xs with
  | x :: _ => Ok x
  | [] => Raise IndexError
  end.

(** The body of the loop over [enumerate(formula_plain)]. *)
Definition record_state (d : list (string * Z)) (gi : string * string)
  : result (list (string * Z)) :=
  let '(g, oxs) := gi in
  el <- first_item (re_split_each is_digit (strip g)) ;;
  v <- int_of_string oxs ;;
  k <- Element el ;;
  Ok (dict_set k v d).

Definition get_composition_oxidation_state (formula : string)
  : result (Composition * list (string * Z)) :=
  let non_alphabets := re_split_runs is_alpha formula in
  match non_alphabets with
  | [] => c <- Composition_of_formula formula ;; Ok (c, [])
  | _ =>
      oxidation_states <- collect_oxidation_states non_alphabets ;;
      match oxidation_states with
      | [] => c <- Composition_of_formula formula ;; Ok (c, [])
      | _ =>
          formula_plain <- plain_fragments formula oxidation_states ;;
          d <- for_each record_state (combine formula_plain oxidation_states) [] ;;
          c <- Composition_of_formula (String.concat "" formula_plain) ;;
          Ok (c, d)
      end
  end.
End FormulaParser.

(** ** Python numbers and sequences *)

(** A feature value: [bool], [int] or [float]. *)
Inductive value : Type :=
| VBool (b : bool)
| VInt (z : Z)
| VFloat (x : R).

Definition VRat (q : Q) : value := VFloat (Q2R q).

(** [int(x)] on a float: truncation toward zero. *)
Definition py_int (q : Q) : Z := Z.quot (Qnum q) (Zpos (Qden q)).

(** [a / b] on Python floats. *)
Definition py_div (a b : Q) : result Q :=
  if Qeq_bool b 0 then Raise ZeroDivisionError else Ok (a / b).

(** [sum(l)] *)
Definition py_sum (l : list Q) : Q := Qsum l.

(** [len(l)] as a number. *)
Definition py_len {A : Type} (l : list A) : Z := Z.of_nat (List.length l).

(** [l[i]], a negative [i] counting from the end. *)
Definition py_index {A : Type} (l : list A) (i : Z) : result A :=
  let j := if (i <? 0)%Z then (py_len l + i)%Z else i in
  if (j <? 0)%Z then Raise IndexError
  else match nth_error l (Z.to_nat j) with
       | Some a => Ok a
       | None => Raise IndexError
       end.

(** [l[i] = v] for an index in range. *)
Fixpoint list_set {A : Type} (l : list A) (i : nat) (v : A) : list A :=
  match l, i with
  | [], _ => []
  | _ :: l', O => v :: l'
  | a :: l', S i' => a :: list_set l' i' v
  end.

(** [max(xs, key=key)]: the first item whose key no later item exceeds. *)
Section MaxBy.
Context {A : Type} (key : A -> nat).

Fixpoint max_by_from (best : A) (xs : list A) : A :=
  match xs with
  | [] => best
  | x :: xs' => max_by_from (if (key best <? key x)%nat then x else best) xs'
  end.

Definition py_max_by (xs : list A) : result A :=
  match xs with
  | [] => Raise (ValueError "max() arg is an empty sequence")
  | x :: xs' => Ok (max_by_from x xs')
  end.
End MaxBy.

Fixpoint min_from (best : Q) (xs : list Q) : Q :=
  match xs with
  | [] => best
  | x :: xs' => min_from (if Qle_bool best x then best else x) xs'
  end.

Fixpoint max_from (best : Q) (xs : list Q) : Q :=
  match xs with
  | [] => best
  | x :: xs' => max_from (if Qle_bool x best then best else x) xs'
  end.

(** [min(l)] and [max(l)] *)
Definition py_min (l : list Q) : result Q :=
  match l with
  | [] => Raise (ValueError "min() arg is an empty sequence")
  | x :: xs => Ok (min_from x xs)
  end.

Definition py_max (l : list Q) : result Q :=
  match l with
  | [] => Raise (ValueError "max() arg is an empty sequence")
  | x :: xs => Ok (max_from x xs)
  end.

(** [l.count(x)] *)
Definition py_count (l : list Q) (x : Q) : nat :=
  List.length (filter (Qeq_bool x) l).

(** [sorted(l, key=key)]: a stable sort, items with equal keys keep their
    order. *)
Section SortedBy.
Context {A : Type} (key : A -> Q).

Fixpoint insert_by (x : A) (l : list A) : list A :=
  match l with
  | [] => [x]
  | y :: l' => if Qle_bool (key x) (key y) then x :: y :: l' else y :: insert_by x l'
  end.

Fixpoint sorted_by (l : list A) : list A :=
  match l with
  | [] => []
  | x :: l' => insert_by x (sorted_by l')
  end.
End SortedBy.

(** [itertools.product] of the lists [ls]: the rightmost position advances
    fastest. *)
Fixpoint product {A : Type} (ls : list (list A)) : list (list A) :=
  match ls with
  | [] => [[]]
  | l :: rest => flat_map (fun x => map (cons x) (product rest)) l
  end.

(** [itertools.combinations(range(n), 2)] *)
Definition combinations2 (n : nat) : list (nat * nat) :=
  flat_map (fun i => map (pair i) (seq (S i) (n - S i))) (seq 0 n).

(** [np.dot(ox, values)] on an integer tuple and a float list of the same
    length. *)
Definition np_dot (ox : list Z) (vals : list Q) : Q :=
  py_sum (map (fun p => inject_Z (fst p) * snd p) (combine ox vals)).

(** ** The property provider *)

(** The Magpie tables: the electronegativity that orders the elements, the
    numeric properties by name ([None] for a name the tables do not have)
    and the list of oxidation states of each element. *)
Record MagpieData : Type := mkMagpieData {
  electronegativity : string -> Q;
  numeric_property : string -> option (string -> Q);
  oxidation_states_of : string -> list Z
}.

(** One entry per atom: each element, in the given order, contributes its
    value [int(amount)] times. *)
Definition per_atom {A : Type} (value_of : string -> A) (ordered : list (string * Q))
  : list A :=
  flat_map (fun ea => repeat (value_of (fst ea)) (Z.to_nat (py_int (snd ea)))) ordered.

(** Modelled from the spec: [magpie_data.get_data] of
    [matminer.descriptors.data], which is not among the sources.  The
    spec's contract for the property provider: one value per atom, the
    amounts taken as integer counts, grouped by element, the elements by
    ascending electronegativity; a lookup error for a name that is not
    recognised. *)
Definition get_data (md : MagpieData) (comp : Composition) (name : string)
  : result (list Q) :=
  match numeric_property md name with
  | None => Raise LookupError
  | Some value_of =>
      Ok (per_atom value_of
            (sorted_by (fun ea => electronegativity md (fst ea)) (el_amt comp)))
  end.

(** Modelled from the spec: [magpie_data.get_data(comp, "OxidationStates")],
    the same series for the list-valued property. *)
Definition get_data_oxidation_states (md : MagpieData) (comp : Composition)
  : list (list Z) :=
  per_atom (oxidation_states_of md)
    (sorted_by (fun ea => electronegativity md (fst ea)) (el_amt comp)).

(** ** The featurizers *)

(** Modelled from the spec: the base class [AbstractFeaturizer] of
    [matminer.descriptors.base], which is not among the sources.  The
    featurizer interface of the spec: [featurize(composition)] gives an
    ordered sequence of numbers and booleans, [generate_labels()] the
    matching names. *)
Class AbstractFeaturizer (F : Type) : Type := {
  featurize : F -> Composition -> result (list value);
  generate_labels : F -> list string
}.

Module StoichiometricAttribute.
Local Open Scope string_scope.

Record t : Type := mk { p_list : list Z }.

(** [__init__] *)
Definition init (p_list : option (list Z)) : t :=
  match p_list with
  | None => mk [0; 2; 3; 5; 7; 10]%Z
  | Some l => mk l
  end.

(** [x ** (1.0 / p)] for [x >= 0] and [p > 0]. *)
Definition root (x : Q) (p : Z) : R :=
  if Qeq_bool x 0 then 0%R else Rpower (Q2R x) (/ IZR p).

(** [for j in el_amt: p_norms[i] += (el_amt[j] / n_atoms) ** p] *)
Definition norm_sum (el_amt : list (string * Q)) (n_atoms : Q) (p : Z) : result Q :=
  for_each (fun acc ja => f <- py_div (snd ja) n_atoms ;; Ok (acc + f ^ p))
           el_amt 0.

(** The body of the loop over [range(len(self.p_list))]. *)
Definition step (self : t) (el_amt : list (string * Q)) (n_atoms : Q)
           (p_norms : list value) (i : nat) : result (list value) :=
  p <- py_index (p_list self) (Z.of_nat i) ;;
  if (p <? 0)%Z then Raise (ValueError "p-norm not defined for p < 0")
  else if (p =? 0)%Z then Ok (list_set p_norms i (VInt (py_len (values el_amt))))
  else s <- norm_sum el_amt n_atoms p ;;
       Ok (list_set p_norms i (VFloat (root s p))).

Definition featurize (self : t) (comp : Composition) : result (list value) :=
  let el_amt := el_amt comp in
  let p_norms := repeat (VInt 0) (List.length (p_list self)) in
  let n_atoms := py_sum (values el_amt) in
  for_each (step self el_amt n_atoms) (seq 0 (List.length (p_list self))) p_norms.

Definition generate_labels (self : t) : list string :=
  map (fun p => PyStr.format_d p ++ "-norm") (p_list self).
End StoichiometricAttribute.

Module ElementalAttribute.
Local Open Scope string_scope.

Record t : Type := mk { attributes : list string }.

(** [__init__] *)
Definition init (attributes : option (list string)) : t :=
  match attributes with
  | None => mk ["Number"; "MendeleevNumber"; "AtomicWeight"; "MeltingT"; "Column";
                "Row"; "CovalentRadius"; "Electronegativity";
                "NsValence"; "NpValence"; "NdValence"; "NfValence"; "NValance";
                "NsUnfilled"; "NpUnfilled"; "NdUnfilled"; "NfUnfilled"; "NUnfilled";
                "GSvolume_pa"; "GSbandgap"; "GSmagmom"; "SpaceGroupNumber"]
  | Some l => mk l
  end.

Section WithData.
Variable magpie_data : MagpieData.
(** The order in which Python iterates over [set(elem_data)]. *)
Variable set_iter : list Q -> list Q.

(** [max(set(elem_data), key=elem_data.count)] *)
Definition mode (elem_data : list Q) : result Q :=
  py_max_by (py_count elem_data) (set_iter elem_data).

(** The six statistics of one property series, in the order they are
    appended. *)
Definition statistics (elem_data : list Q) : result (list value) :=
  mn <- py_min elem_data ;;
  mx <- py_max elem_data ;;
  prop_mean <- py_div (py_sum elem_data) (inject_Z (py_len elem_data)) ;;
  dev <- py_div (py_sum (map (fun x => Qabs (x - prop_mean)) elem_data))
                (inject_Z (py_len elem_data)) ;;
  md <- mode elem_data ;;
  Ok [VRat mn; VRat mx; VRat (mx - mn); VRat prop_mean; VRat dev; VRat md].

Definition featurize (self : t) (comp : Composition) : result (list value) :=
  for_each (fun all_attributes attr =>
              elem_data <- get_data magpie_data comp attr ;;
              st <- statistics elem_data ;;
              Ok (all_attributes ++ st)%list)
           (attributes self) [].
End WithData.

Definition labels_of (attr : string) : list string :=
  ["Min " ++ attr; "Max " ++ attr; "Range " ++ attr;
   "Mean " ++ attr; "AbsDev " ++ attr; "Mode " ++ attr].

Definition generate_labels (self : t) : list string :=
  flat_map labels_of (attributes self).
End ElementalAttribute.

Module ValenceOrbitalAttribute.
Local Open Scope string_scope.

Inductive t : Type := mk.

Section WithData.
Variable magpie_data : MagpieData.

(** [sum(magpie_data.get_data(comp, name)) / num_atoms] *)
Definition average (comp : Composition) (name : string) : result Q :=
  series <- get_data magpie_data comp name ;;
  py_div (py_sum series) (num_atoms comp).

Definition featurize (self : t) (comp : Composition) : result (list value) :=
  avg_total_valence <- average comp "NValance" ;;
  avg_s <- average comp "NsValence" ;;
  avg_p <- average comp "NpValence" ;;
  avg_d <- average comp "NdValence" ;;
  avg_f <- average comp "NfValence" ;;
  Fs <- py_div avg_s avg_total_valence ;;
  Fp <- py_div avg_p avg_total_valence ;;
  Fd <- py_div avg_d avg_total_valence ;;
  Ff <- py_div avg_f avg_total_valence ;;
  Ok [VRat Fs; VRat Fp; VRat Fd; VRat Ff].
End WithData.

Definition generate_labels (self : t) : list string :=
  map (fun orb => "Frac " ++ orb ++ " Valence Electrons") ["s"; "p"; "d"; "f"].
End ValenceOrbitalAttribute.

Module IonicAttribute.
Local Open Scope string_scope.

Inductive t : Type := mk.

(** [1.0 - np.exp(-0.25 * (XA - XB) ** 2)] *)
Definition ionic_character (XA XB : Q) : R :=
  (1 - exp (Q2R (- (1 # 4) * (XA - XB) ^ 2)))%R.

(** The body of the loop over [range(1, len(values) + 1)]. *)
Definition pick (vals : list Q) (all_ox_states : list (list Z)) (all_elec : list Q)
           (acc : list (list Z) * list Q) (i : nat)
  : result (list (list Z) * list Q) :=
  let ind := py_int (py_sum (firstn i vals) - 1) in
  o <- py_index all_ox_states ind ;;
  e <- py_index all_elec ind ;;
  Ok ((fst acc ++ [o])%list, (snd acc ++ [e])%list).

(** The loop over [ox_sets], left at the first neutral combination. *)
Fixpoint neutral_search (ox_sets : list (list Z)) (vals : list Q) : bool :=
  match ox_sets with
  | [] => false
  | ox :: rest => if Qeq_bool (np_dot ox vals) 0 then true else neutral_search rest vals
  end.

(** The body of the loop over [atom_pairs]: the state is [ionic_char] and
    [avg_ionic_char]. *)
Definition pair_step (elec el_frac : list Q) (acc : list R * R) (pair : nat * nat)
  : result (list R * R) :=
  XA <- py_index elec (Z.of_nat (fst pair)) ;;
  XB <- py_index elec (Z.of_nat (snd pair)) ;;
  fA <- py_index el_frac (Z.of_nat (fst pair)) ;;
  fB <- py_index el_frac (Z.of_nat (snd pair)) ;;
  let c := ionic_character XA XB in
  Ok ((fst acc ++ [c])%list, (snd acc + Q2R fA * Q2R fB * c)%R).

(** [np.max(l)] *)
Definition np_max (l : list R) : result R :=
  match l with
  | [] => Raise (ValueError "zero-size array to reduction operation maximum")
  | x :: xs => Ok (fold_left Rmax xs x)
  end.

Section WithData.
Variable magpie_data : MagpieData.

Definition featurize (self : t) (comp : Composition) : result (list value) :=
  let el_amt := el_amt comp in
  let elements := keys el_amt in
  let vals := values el_amt in
  if (List.length elements <? 2)%nat then Ok [VBool true; VInt 0; VInt 0]
  else
    let all_ox_states := get_data_oxidation_states magpie_data comp in
    all_elec <- get_data magpie_data comp "Electronegativity" ;;
    '(ox_states, elec) <-
       for_each (pick vals all_ox_states all_elec) (seq 1 (List.length vals)) ([], []) ;;
    let cpd_possible := neutral_search (product ox_states) vals in
    let atom_pairs := combinations2 (List.length elements) in
    let el_frac := map (fun v => v / py_sum vals) vals in
    '(ionic_char, avg_ionic_char) <-
       for_each (pair_step elec el_frac) atom_pairs ([], 0%R) ;;
    max_ionic_char <- np_max ionic_char ;;
    Ok [VBool cpd_possible; VFloat max_ionic_char; VFloat avg_ionic_char].
End WithData.

Definition generate_labels (self : t) : list string :=
  ["compound possible"; "Max Ionic Char"; "Avg Ionic Char"].
End IonicAttribute.

(** ** The per-atom series from pymatgen *)

(** What [getattr(element, property_name)] can be, as far as
    [get_pymatgen_descriptor] distinguishes: [None], a [FloatWithUnit], a
    plain number, the [ionic_radii] dictionary from oxidation state to
    radius, a string that is no number (such as the symbol), or another
    object [float] does not accept. *)
Inductive attribute : Type :=
| ANone
| AFloatWithUnit (v : Q) (unit : string)
| ANumber (v : Q)
| ARadii (radii : list (Z * Q))
| AText (s : string)
| AOther.

(** The first argument of [get_pymatgen_descriptor]. *)
Inductive composition_arg : Type :=
| AsComposition (c : Composition)
| AsString (formula : string).

Fixpoint radii_get (o : Z) (d : list (Z * Q)) : result Q :=
  match d with
  | [] => Raise KeyError
  | (o', r) :: d' => if (o =? o')%Z then Ok r else radii_get o d'
  end.

Section PymatgenDescriptor.
Local Open Scope string_scope.

Variable Composition_of_formula : string -> result Composition.
Variable Element : string -> result string.
(** [get_el_sp(sym).X] *)
Variable X : string -> Q.
(** [getattr(Element(el_sym), property_name)], [None] when the attribute
    is missing. *)
Variable getattr : string -> string -> option attribute.

(** [float(p)] *)
Definition float_of (p : attribute) : result Q :=
  match p with
  | AFloatWithUnit v _ => Ok v
  | ANumber v => Ok v
  | AText _ => Raise (ValueError "could not convert string to float")
  | ANone | ARadii _ | AOther => Raise TypeError
  end.

(** [p.unit] *)
Definition unit_of (p : attribute) : result string :=
  match p with
  | AFloatWithUnit _ u => Ok u
  | _ => Raise AttributeError
  end.

(** [element.ionic_radii[o]] *)
Definition ionic_radius (p : attribute) (o : Z) : result Q :=
  match p with
  | ARadii d => radii_get o d
  | _ => Raise TypeError
  end.

Definition unitless : list string :=
  ["X"; "Z"; "group"; "row"; "number"; "mendeleev_no"; "ionic_radii"].

Definition mem (s : string) (l : list string) : bool := existsb (String.eqb s) l.

(** The oxidation states of a [Composition] argument: those of its
    species when the first of them carries one. *)
Definition species_oxidation_states (c : Composition) : result (list (string * Z)) :=
  first <- py_index (elements c) 0 ;;
  match snd first with
  | None => Ok []
  | Some _ =>
      for_each (fun d sp =>
                  match snd sp with
                  | Some o => Ok (dict_set (fst sp) o d)
                  | None => Raise AttributeError
                  end)
               (elements c) []
  end.

(** The value one element contributes: the part of the loop body before
    the entries are appended. *)
Definition property_value_of (oxidation_states : list (string * Z))
           (property_name el_sym : string) : result (option Q) :=
  match getattr el_sym property_name with
  | None => Raise AttributeError
  | Some ANone => Ok None
  | Some p =>
      property_value <-
        (if mem property_name ["ionic_radii"] then
           match oxidation_states with
           | _ :: _ => o <- dict_get el_sym oxidation_states ;; ionic_radius p o
           | [] => Raise (ValueError "oxidation state not given for ionic_radii; It does not yield a unique number per Element")
           end
         else float_of p) ;;
      property_units <-
        (if mem property_name unitless then Ok None
         else u <- unit_of p ;; Ok (Some u)) ;;
      Ok (Some property_value)
  end.

Definition resolve (composition : composition_arg)
  : result (list (string * Q) * list (string * Z)) :=
  match composition with
  | AsComposition c =>
      oxidation_states <- species_oxidation_states c ;;
      Ok (el_amt c, oxidation_states)
  | AsString formula =>
      '(comp, oxidation_states) <-
         get_composition_oxidation_state Composition_of_formula Element formula ;;
      Ok (el_amt comp, oxidation_states)
  end.

Definition get_pymatgen_descriptor (composition : composition_arg)
           (property_name : string) : result (list (option Q)) :=
  '(el_amt_dict, oxidation_states) <- resolve composition ;;
  let symbols := sorted_by X (keys el_amt_dict) in
  for_each (fun eldata el_sym =>
              property_value <- property_value_of oxidation_states property_name el_sym ;;
              amt <- dict_get el_sym el_amt_dict ;;
              Ok (eldata ++ repeat property_value (Z.to_nat (py_int amt)))%list)
           symbols [].
End PymatgenDescriptor.

(** ** Sample data

    A few compositions as pymatgen builds them and a fragment of the
    element tables, for the concrete evaluations below. *)

Module Samples.
Local Open Scope string_scope.

(** [Composition("Fe2O3")] *)
Definition Fe2O3 : Composition :=
  mkComposition [("Fe", None); ("O", None)] [("Fe", 2); ("O", 3)] 5.

(** [Composition("NaCl")] *)
Definition NaCl : Composition :=
  mkComposition [("Na", None); ("Cl", None)] [("Na", 1); ("Cl", 1)] 2.

(** [Composition("Mg0.5F")], magnesium fluoride written per fluorine. *)
Definition Mg05F : Composition :=
  mkComposition [("Mg", None); ("F", None)] [("Mg", 1 # 2); ("F", 1)] (3 # 2).

(** [Composition("Fe0.5O2.7")] *)
Definition Fe05O27 : Composition :=
  mkComposition [("Fe", None); ("O", None)] [("Fe", 1 # 2); ("O", 27 # 10)] (32 # 10).

(** Pauling electronegativities. *)
Definition X (sym : string) : Q :=
  if sym =? "Na" then 93 # 100
  else if sym =? "Mg" then 131 # 100
  else if sym =? "Fe" then 183 # 100
  else if sym =? "Cl" then 316 # 100
  else if sym =? "O" then 344 # 100
  else if sym =? "F" then 398 # 100
  else 0.

Definition oxidation_states (sym : string) : list Z :=
  if sym =? "Na" then [1%Z]
  else if sym =? "Mg" then [2%Z]
  else if sym =? "Fe" then [2%Z; 3%Z]
  else if sym =? "Cl" then [(-1)%Z]
  else if sym =? "O" then [(-2)%Z]
  else if sym =? "F" then [(-1)%Z]
  else [].

(** Total, s, p, d and f valence electrons. *)
Definition valence (name sym : string) : Q :=
  if sym =? "Fe" then
    (if name =? "NValance" then 8 else if name =? "NsValence" then 2
     else if name =? "NdValence" then 6 else 0)
  else if sym =? "O" then
    (if name =? "NValance" then 6 else if name =? "NsValence" then 2
     else if name =? "NpValence" then 4 else 0)
  else 0.

Definition magpie_data : MagpieData :=
  mkMagpieData X
    (fun name =>
       if name =? "Electronegativity" then Some X
       else if mem name ["NValance"; "NsValence"; "NpValence"; "NdValence"; "NfValence"]
            then Some (valence name)
       else None)
    oxidation_states.

(** pymatgen's formula parser on the formulas used below. *)
Definition Composition_of_formula (formula : string) : result Composition :=
  if formula =? "Fe2O3" then Ok Fe2O3
  else if formula =? "NaCl" then Ok NaCl
  else Raise CompositionError.

Definition Element (sym : string) : result string :=
  if mem sym ["Na"; "Mg"; "Fe"; "Cl"; "O"; "F"] then Ok sym
  else Raise (ValueError "not a valid element symbol").

(** Element attributes: [X] is a plain number, [atomic_mass] a
    [FloatWithUnit], [ionic_radii] a dictionary, [boiling_point] unknown
    for these elements. *)
Definition getattr (sym property_name : string) : option attribute :=
  if property_name =? "X" then Some (ANumber (X sym))
  else if property_name =? "atomic_mass" then
    Some (AFloatWithUnit (if sym =? "Fe" then 55845 # 1000 else 15999 # 1000) "amu")
  else if property_name =? "ionic_radii" then
    Some (ARadii (if sym =? "Fe" then [(2%Z, 92 # 100); (3%Z, 785 # 1000)]
                  else [((-2)%Z, 126 # 100)]))
  else if property_name =? "boiling_point" then Some ANone
  else None.
End Samples.

(** ** Derived notions used in the statements *)

(** The list of the results of [f] on the items of [l]; the first
    exception wins. *)
Fixpoint map_result {A B : Type} (f : A -> result B) (l : list A) : result (list B) :=
  match l with
  | [] => Ok []
  | x :: l' => y <- f x ;; ys <- map_result f l' ;; Ok (y :: ys)
  end.

(** The number of distinct element symbols of a composition. *)
Definition distinct_elements (comp : Composition) : nat :=
  List.length (nodup string_dec (keys (el_amt comp))).

(** The four featurizers as instances of the interface. *)
#[export] Instance stoichiometric_featurizer : AbstractFeaturizer StoichiometricAttribute.t :=
  {| featurize := StoichiometricAttribute.featurize;
     generate_labels := StoichiometricAttribute.generate_labels |}.

Definition elemental_featurizer (magpie_data : MagpieData) (set_iter : list Q -> list Q)
  : AbstractFeaturizer ElementalAttribute.t :=
  {| featurize := ElementalAttribute.featurize magpie_data set_iter;
     generate_labels := ElementalAttribute.generate_labels |}.

Definition valence_orbital_featurizer (magpie_data : MagpieData)
  : AbstractFeaturizer ValenceOrbitalAttribute.t :=
  {| featurize := ValenceOrbitalAttribute.featurize magpie_data;
     generate_labels := ValenceOrbitalAttribute.generate_labels |}.

Definition ionic_featurizer (magpie_data : MagpieData)
  : AbstractFeaturizer IonicAttribute.t :=
  {| featurize := IonicAttribute.featurize magpie_data;
     generate_labels := IonicAttribute.generate_labels |}.

(** Label/value alignment of a featurizer: whenever [featurize] returns a
    vector, it is as long as the label sequence. *)
Definition aligned {F : Type} (I : AbstractFeaturizer F) : Prop :=
  forall (self : F) (c : Composition) (out : list value),
    featurize self c = Ok out ->
    List.length out = List.length (generate_labels self).

(** The entry [StoichiometricAttribute.featurize] computes for the
    exponent [p]: the three branches of its loop body. *)
Definition norm_entry (comp : Composition) (p : Z) : result value :=
  if (p <? 0)%Z then Raise (ValueError "p-norm not defined for p < 0")
  else if (p =? 0)%Z then Ok (VInt (py_len (values (el_amt comp))))
  else s <- StoichiometricAttribute.norm_sum (el_amt comp) (py_sum (values (el_amt comp))) p ;;
       Ok (VFloat (StoichiometricAttribute.root s p)).

(** The block of six statistics [ElementalAttribute.featurize] appends
    for one attribute. *)
Definition attribute_block (magpie_data : MagpieData) (set_iter : list Q -> list Q)
           (comp : Composition) (attr : string) : result (list value) :=
  elem_data <- get_data magpie_data comp attr ;;
  ElementalAttribute.statistics set_iter elem_data.

(** An iteration order for [set(l)]: it carries the values of [l] and no
    others. *)
Definition set_order (set_iter : list Q -> list Q) : Prop :=
  forall l, (forall x, In x (set_iter l) -> exists y, In y l /\ x == y)
            /\ (forall y, In y l -> exists x, In x (set_iter l) /\ x == y).

(** How often [v] occurs in the series, item by item: the frequency the
    mode is about. *)
Fixpoint frequency (v : Q) (l : list Q) : nat :=
  match l with
  | [] => 0
  | x :: l' => (if Qeq_bool x v then 1 else 0) + frequency v l'
  end.

(** One iteration order: the values by first occurrence. *)
Fixpoint first_occurrences (l : list Q) : list Q :=
  match l with
  | [] => []
  | x :: l' => x :: filter (fun y => negb (Qeq_bool x y)) (first_occurrences l')
  end.

(** ** The ionic attributes as the specification words them

    These follow the spec's sentences, not the code: a neutral compound is
    possible when one candidate oxidation state per distinct element makes
    the amount-weighted sum zero; the ionic character of a pair of distinct
    elements comes from their electronegativities, weighted by the two
    atomic fractions for the average. *)

Definition spec_compound_possible (magpie_data : MagpieData) (comp : Composition) : Prop :=
  exists ox : list Z,
    Forall2 (fun ea o => In o (oxidation_states_of magpie_data (fst ea))) (el_amt comp) ox
    /\ np_dot ox (values (el_amt comp)) == 0.

(** The unordered pairs of distinct positions of a list. *)
Fixpoint unordered_pairs {A : Type} (l : list A) : list (A * A) :=
  match l with
  | [] => []
  | x :: l' => map (pair x) l' ++ unordered_pairs l'
  end.

Definition Rsum (l : list R) : R := fold_right Rplus 0%R l.

Definition spec_pair_characters (X : string -> Q) (comp : Composition) : list R :=
  map (fun ab => IonicAttribute.ionic_character (X (fst (fst ab))) (X (fst (snd ab))))
      (unordered_pairs (el_amt comp)).

Definition spec_max_ionic_char (X : string -> Q) (comp : Composition) : result R :=
  IonicAttribute.np_max (spec_pair_characters X comp).

Definition spec_avg_ionic_char (X : string -> Q) (comp : Composition) : R :=
  let total := py_sum (values (el_amt comp)) in
  Rsum (map (fun ab =>
               (Q2R (snd (fst ab) / total) * Q2R (snd (snd ab) / total)
                * IonicAttribute.ionic_character (X (fst (fst ab))) (X (fst (snd ab))))%R)
            (unordered_pairs (el_amt comp))).

(** Amounts that are whole numbers of atoms. *)
Definition whole (a : Q) : Prop := exists z : Z, (1 <= z)%Z /\ a == inject_Z z.

Definition whole_amounts (comp : Composition) : Prop :=
  Forall whole (values (el_amt comp)).

(** ** Annotated formulas

    The formulas [get_composition_oxidation_state] is written for, such as
    ["Fe2+3O3-2"]: a sequence of terms, each an element symbol, the digits
    of its amount (possibly none), a sign and the digits of its oxidation
    state. *)
Record annotated_term : Type := mkTerm {
  term_symbol : string;
  term_amount : string;
  term_negative : bool;
  term_state : string
}.

Fixpoint all_chars (p : ascii -> bool) (s : string) : bool :=
  match s with
  | EmptyString => true
  | String c s' => p c && all_chars p s'
  end.

Definition term_sign (t : annotated_term) : ascii :=
  if term_negative t then "-"%char else "+"%char.

(** ["+3"] *)
Definition term_annotation (t : annotated_term) : string :=
  String (term_sign t) (term_state t).

(** ["Fe2"] *)
Definition term_plain (t : annotated_term) : string :=
  (term_symbol t ++ term_amount t)%string.

(** ["Fe2+3"] *)
Definition term_text (t : annotated_term) : string :=
  (term_plain t ++ term_annotation t)%string.

(** ["2+3"], the text between the symbol of a term and the next symbol. *)
Definition term_segment (t : annotated_term) : string :=
  (term_amount t ++ term_annotation t)%string.

(** The oxidation state as a number. *)
Definition term_value (t : annotated_term) : Z :=
  let v := PyStr.digits_value (term_state t) 0%Z in
  if term_negative t then (- v)%Z else v.

Definition well_formed_term (t : annotated_term) : Prop :=
  term_symbol t <> EmptyString
  /\ all_chars PyStr.is_alpha (term_symbol t) = true
  /\ PyStr.all_digits (term_amount t) = true
  /\ term_state t <> EmptyString
  /\ PyStr.all_digits (term_state t) = true.

Definition formula_of (terms : list annotated_term) : string :=
  String.concat "" (map term_text terms).

Definition plain_formula_of (terms : list annotated_term) : string :=
  String.concat "" (map term_plain terms).

(** The dictionary of the oxidation states of the terms, filled in order. *)
Definition states_of (Element : string -> result string) (terms : list annotated_term)
  : result (list (string * Z)) :=
  for_each (fun d t => k <- Element (term_symbol t) ;; Ok (dict_set k (term_value t) d))
           terms [].

(** * Properties *)

(** ** The result monad and the loops *)

Lemma map_result_length {A B} (f : A -> result B) l : forall out,
  map_result f l = Ok out -> List.length out = List.length l.
Proof.
  induction l as [|x l IH]; simpl; intros out H.
  - now inversion H.
  - destruct (f x); [|discriminate]. simpl in H.
    destruct (map_result f l) eqn:E; [|discriminate]. simpl in H.
    inversion H; subst; simpl. f_equal. now apply IH.
Qed.

Lemma map_result_Forall2 {A B} (f : A -> result B) l : forall out,
  map_result f l = Ok out -> Forall2 (fun x y => f x = Ok y) l out.
Proof.
  induction l as [|x l IH]; simpl; intros out H.
  - inversion H; constructor.
  - destruct (f x) eqn:Ex; [|discriminate]. simpl in H.
    destruct (map_result f l) eqn:E; [|discriminate]. simpl in H.
    inversion H; subst. constructor; auto.
Qed.

Lemma Forall2_map_result {A B} (f : A -> result B) l out :
  Forall2 (fun x y => f x = Ok y) l out -> map_result f l = Ok out.
Proof.
  induction 1 as [|x y l out Hx _ IH]; simpl; [reflexivity|].
  now rewrite Hx, IH.
Qed.

Lemma for_each_append {A B} (f : A -> result (list B)) l : forall acc,
  for_each (fun acc x => ys <- f x ;; Ok (acc ++ ys)%list) l acc
  = (blocks <- map_result f l ;; Ok (acc ++ List.concat blocks)%list).
Proof.
  induction l as [|x l IH]; intros acc; simpl.
  - now rewrite app_nil_r.
  - destruct (f x) as [ys|e]; simpl; [|reflexivity].
    rewrite IH. destruct (map_result f l); simpl; [|reflexivity].
    now rewrite app_assoc.
Qed.

Lemma list_set_middle {A} (pre : list A) old v post :
  list_set (pre ++ old :: post) (List.length pre) v = pre ++ v :: post.
Proof. induction pre as [|a pre IH]; simpl; [reflexivity | now rewrite IH]. Qed.

Lemma py_index_middle {A} (pre : list A) x post :
  py_index (pre ++ x :: post) (Z.of_nat (List.length pre)) = Ok x.
Proof.
  unfold py_index.
  assert (E : (Z.of_nat (List.length pre) <? 0)%Z = false) by (apply Z.ltb_ge; lia).
  rewrite !E, Nat2Z.id, nth_error_app2, Nat.sub_diag by lia. reflexivity.
Qed.

Module StoichiometricFacts.
Import StoichiometricAttribute.
Local Open Scope list_scope.

Lemma loop_from comp done_p todo : forall done_v,
  List.length done_v = List.length done_p ->
  for_each (step (mk (done_p ++ todo)) (el_amt comp) (py_sum (values (el_amt comp))))
           (seq (List.length done_p) (List.length todo))
           (done_v ++ repeat (VInt 0) (List.length todo))
  = (vs <- map_result (norm_entry comp) todo ;; Ok (done_v ++ vs)%list).
Proof.
  revert done_p; induction todo as [|p todo IH]; intros done_p done_v Hlen; simpl.
  - reflexivity.
  - unfold step at 1. cbn [p_list].
    rewrite py_index_middle. cbn [bind]. unfold norm_entry at 1.
    destruct (p <? 0)%Z; [reflexivity|].
    assert (Hnext : forall v,
      for_each (step (mk (done_p ++ p :: todo)) (el_amt comp) (py_sum (values (el_amt comp))))
               (seq (S (List.length done_p)) (List.length todo))
               (list_set (done_v ++ VInt 0 :: repeat (VInt 0) (List.length todo))
                         (List.length done_p) v)
      = (vs <- map_result (norm_entry comp) todo ;; Ok (done_v ++ v :: vs)%list)).
    { intros v. rewrite <- Hlen, list_set_middle.
      replace (done_p ++ p :: todo)%list with ((done_p ++ [p]) ++ todo)%list
        by now rewrite <- app_assoc.
      replace (S (List.length done_v)) with (List.length (done_p ++ [p]))
        by (rewrite length_app; simpl; lia).
      replace (done_v ++ v :: repeat (VInt 0) (List.length todo))%list
        with ((done_v ++ [v]) ++ repeat (VInt 0) (List.length todo))%list
        by now rewrite <- app_assoc.
      rewrite IH by (rewrite !length_app; simpl; lia).
      destruct (map_result (norm_entry comp) todo); simpl; [|reflexivity].
      now rewrite <- app_assoc. }
    destruct (p =? 0)%Z.
    + cbn [bind]. rewrite Hnext. now destruct (map_result (norm_entry comp) todo).
    + destruct (norm_sum _ _ p); cbn [bind]; [|reflexivity].
      rewrite Hnext. now destruct (map_result (norm_entry comp) todo).
Qed.

(** The index loop computes the entries of [p_list] from left to right. *)
Lemma featurize_entries self comp :
  featurize self comp = map_result (norm_entry comp) (p_list self).
Proof.
  destruct self as [pl]. unfold featurize. cbn [p_list].
  pose proof (loop_from comp [] pl [] eq_refl) as H. simpl in H.
  rewrite H. now destruct (map_result (norm_entry comp) pl).
Qed.
End StoichiometricFacts.

(** ** The formula splitter *)

Section FormulaFacts.
Import PyStr.
Open Scope string_scope.

Variable c : ascii.

Lemma contains_rev_acc s acc :
  contains c (rev_acc s acc) = contains c s || contains c acc.
Proof.
  revert acc; induction s as [|d s IH]; intros acc; simpl; [reflexivity|].
  rewrite IH; simpl.
  destruct (Ascii.eqb c d), (contains c s), (contains c acc); reflexivity.
Qed.

Lemma contains_rev s : contains c (rev s) = contains c s.
Proof. unfold rev; rewrite contains_rev_acc; simpl; apply orb_false_r. Qed.

Lemma contains_lstrip s : contains c s = false -> contains c (lstrip s) = false.
Proof.
  induction s as [|d s IH]; simpl; intros H; [reflexivity|].
  apply orb_false_iff in H as [Hd Hs].
  destruct (is_space d); [auto|]. simpl. now rewrite Hd, Hs.
Qed.

Lemma contains_strip s : contains c s = false -> contains c (strip s) = false.
Proof.
  intros H. unfold strip.
  rewrite contains_rev. apply contains_lstrip.
  rewrite contains_rev. now apply contains_lstrip.
Qed.

Lemma re_split_runs_aux_pieces cls s : forall cur in_run,
  contains c s = false -> contains c cur = false ->
  Forall (fun piece => contains c piece = false) (re_split_runs_aux cls s cur in_run).
Proof.
  induction s as [|d s IH]; simpl; intros cur in_run Hs Hcur.
  - constructor; [now rewrite contains_rev | constructor].
  - apply orb_false_iff in Hs as [Hd Hs].
    destruct (cls d).
    + destruct in_run; [now apply IH|].
      constructor; [now rewrite contains_rev | now apply IH].
    + apply IH; [assumption|]. simpl. now rewrite Hd, Hcur.
Qed.

Lemma re_split_runs_pieces cls s :
  contains c s = false ->
  Forall (fun piece => contains c piece = false) (re_split_runs cls s).
Proof. intros H; now apply re_split_runs_aux_pieces. Qed.
End FormulaFacts.

Section FormulaParserFacts.
Import PyStr.
Open Scope string_scope.
Variable Composition_of_formula : string -> result Composition.
Variable Element : string -> result string.

Lemma segment_without_sign na :
  contains "+" na = false -> contains "-" na = false ->
  segment_oxidation_state na = Ok None.
Proof.
  intros Hp Hm. unfold segment_oxidation_state.
  rewrite (contains_strip _ _ Hp), (contains_strip _ _ Hm).
  now rewrite andb_false_r.
Qed.

Lemma collect_without_sign pieces : forall acc,
  Forall (fun p => contains "+" p = false) pieces ->
  Forall (fun p => contains "-" p = false) pieces ->
  for_each (fun acc na =>
              o <- segment_oxidation_state na ;;
              Ok (match o with Some oxs => (acc ++ [oxs])%list | None => acc end))
           pieces acc = Ok acc.
Proof.
  induction pieces as [|p ps IH]; intros acc Hp Hm; simpl; [reflexivity|].
  inversion Hp; inversion Hm; subst.
  rewrite segment_without_sign by assumption. simpl. now apply IH.
Qed.

Lemma plain_formula_parsed_directly formula :
  contains "+" formula = false -> contains "-" formula = false ->
  get_composition_oxidation_state Composition_of_formula Element formula
  = (c <- Composition_of_formula formula ;; Ok (c, [])).
Proof.
  intros Hp Hm. unfold get_composition_oxidation_state.
  destruct (re_split_runs is_alpha formula) as [|p ps] eqn:E; [reflexivity|].
  unfold collect_oxidation_states.
  rewrite collect_without_sign; [reflexivity | |];
    rewrite <- E; now apply re_split_runs_pieces.
Qed.

Lemma annotated_Fe2O3 :
  Element "Fe" = Ok "Fe" -> Element "O" = Ok "O" ->
  get_composition_oxidation_state Composition_of_formula Element "Fe2+3O3-2"
  = (c <- Composition_of_formula "Fe2O3" ;; Ok (c, [("Fe", 3%Z); ("O", (-2)%Z)])).
Proof.
  intros HFe HO. unfold get_composition_oxidation_state.
  change (re_split_runs is_alpha "Fe2+3O3-2") with [""; "2+3"; "3-2"].
  change (collect_oxidation_states [""; "2+3"; "3-2"]) with (Ok ["+3"; "-2"]).
  cbn [bind].
  change (plain_fragments "Fe2+3O3-2" ["+3"; "-2"]) with (Ok ["Fe2"; "O3"]).
  cbn [bind combine for_each].
  unfold record_state.
  change (first_item (re_split_each is_digit (strip "Fe2"))) with (Ok "Fe").
  change (first_item (re_split_each is_digit (strip "O3"))) with (Ok "O").
  change (int_of_string "+3") with (Ok 3%Z).
  change (int_of_string "-2") with (Ok (-2)%Z).
  cbn [bind]. rewrite HFe. cbn [bind]. rewrite HO. cbn [bind].
  reflexivity.
Qed.
End FormulaParserFacts.

(** C3. [get_composition_oxidation_state] splits ["Fe2+3O3-2"] into the
    composition parsed from ["Fe2O3"] and the oxidation states
    [{"Fe": 3, "O": -2}]; a formula without sign characters, hence without
    annotations, is parsed as it is, with an empty map. *)
Theorem formula_parser_round_trip :
  forall (Composition_of_formula : string -> result Composition)
         (Element : string -> result string),
    (Element "Fe"%string = Ok "Fe"%string ->
     Element "O"%string = Ok "O"%string ->
     get_composition_oxidation_state Composition_of_formula Element "Fe2+3O3-2"
     = (c <- Composition_of_formula "Fe2O3"%string ;;
        Ok (c, [("Fe"%string, 3%Z); ("O"%string, (-2)%Z)])))
    /\ (forall formula : string,
          PyStr.contains "+" formula = false ->
          PyStr.contains "-" formula = false ->
          get_composition_oxidation_state Composition_of_formula Element formula
          = (c <- Composition_of_formula formula ;; Ok (c, []))).
Proof.
  intros Cof El. split.
  - apply annotated_Fe2O3.
  - apply plain_formula_parsed_directly.
Qed.

Lemma formula_parser_round_trip_witness :
  get_composition_oxidation_state Samples.Composition_of_formula Samples.Element
    "Fe2+3O3-2"
  = Ok (Samples.Fe2O3, [("Fe"%string, 3%Z); ("O"%string, (-2)%Z)])
  /\ get_composition_oxidation_state Samples.Composition_of_formula Samples.Element
       "NaCl"
     = Ok (Samples.NaCl, []).
Proof.
  destruct (formula_parser_round_trip Samples.Composition_of_formula Samples.Element)
    as [Hann Hplain].
  split.
  - apply Hann; reflexivity.
  - apply (Hplain "NaCl"%string); reflexivity.
Defined.

(** ** StoichiometricAttribute *)

Lemma Qsum_from_le (l : list Q) : forall a,
  Forall (fun x => 0 < x) l -> a <= fold_left Qplus l a.
Proof.
  induction l as [|x l IH]; intros a H; simpl.
  - apply Qle_refl.
  - inversion H; subst. apply Qle_trans with (a + x).
    + rewrite <- (Qplus_0_r a) at 1. apply Qplus_le_r. now apply Qlt_le_weak.
    + now apply IH.
Qed.

Lemma Qsum_positive (l : list Q) :
  l <> [] -> Forall (fun x => 0 < x) l -> 0 < Qsum l.
Proof.
  destruct l as [|x l]; [congruence|]. intros _ H. inversion H; subst.
  unfold Qsum; simpl. apply Qlt_le_trans with (0 + x).
  - now rewrite Qplus_0_l.
  - now apply Qsum_from_le.
Qed.

Lemma py_div_nonzero a b : ~ b == 0 -> py_div a b = Ok (a / b).
Proof.
  intros H. unfold py_div. destruct (Qeq_bool b 0) eqn:E; [|reflexivity].
  now apply Qeq_bool_iff in E.
Qed.

Lemma py_div_zero a b : b == 0 -> py_div a b = Raise ZeroDivisionError.
Proof. intros H. unfold py_div. apply Qeq_bool_iff in H. now rewrite H. Qed.

Lemma norm_sum_from_defined (el : list (string * Q)) n (p : Z) : ~ n == 0 -> forall acc,
  exists s, for_each (fun acc ja => f <- py_div (snd ja) n ;; Ok (acc + f ^ p)) el acc = Ok s.
Proof.
  intros Hn. induction el as [|ja el IH]; intros acc; simpl; [now exists acc|].
  rewrite py_div_nonzero by assumption. simpl. apply IH.
Qed.

Lemma norm_sum_defined el n p :
  el = [] \/ ~ n == 0 -> exists s, StoichiometricAttribute.norm_sum el n p = Ok s.
Proof.
  unfold StoichiometricAttribute.norm_sum.
  intros [->|Hn]; [now eexists | now apply norm_sum_from_defined].
Qed.

Lemma valid_total_nonzero comp :
  valid_composition comp ->
  el_amt comp = [] \/ ~ py_sum (values (el_amt comp)) == 0.
Proof.
  intros [_ Hpos _]. destruct (el_amt comp) as [|ea el] eqn:E; [now left|right].
  intros H0. assert (0 < py_sum (values (ea :: el))) as Hlt
    by (apply Qsum_positive; [discriminate | assumption]).
  rewrite H0 in Hlt. now apply Qlt_irrefl in Hlt.
Qed.

Lemma norm_entry_cases comp p :
  valid_composition comp ->
  ((p < 0)%Z /\ norm_entry comp p = Raise (ValueError "p-norm not defined for p < 0"))
  \/ ((0 <= p)%Z /\ exists v, norm_entry comp p = Ok v).
Proof.
  intros Hv. unfold norm_entry. destruct (Z.ltb_spec p 0); [now left|right].
  split; [assumption|]. destruct (p =? 0)%Z; [now eexists|].
  destruct (norm_sum_defined p (valid_total_nonzero Hv))
    as [s ->]. now eexists.
Qed.

Lemma negative_entry_raises comp (Hv : valid_composition comp) pl :
  (exists p, In p pl /\ (p < 0)%Z) ->
  map_result (norm_entry comp) pl = Raise (ValueError "p-norm not defined for p < 0").
Proof.
  induction pl as [|q pl IH]; intros [p [Hin Hneg]]; [destruct Hin|].
  simpl. destruct (norm_entry_cases q Hv) as [[_ ->]|[Hq [v ->]]]; [reflexivity|].
  simpl. rewrite IH; [reflexivity|].
  exists p. split; [|assumption]. destruct Hin as [->|]; [lia | assumption].
Qed.

(** C6. A negative exponent anywhere in [p_list] makes
    [StoichiometricAttribute.featurize] raise
    [ValueError("p-norm not defined for p < 0")] on every composition; no
    vector, complete or partial, is returned. *)
Theorem negative_exponent_raises :
  forall (self : StoichiometricAttribute.t) (comp : Composition),
    valid_composition comp ->
    (exists p, In p (StoichiometricAttribute.p_list self) /\ (p < 0)%Z) ->
    StoichiometricAttribute.featurize self comp
    = Raise (ValueError "p-norm not defined for p < 0")
    /\ forall out, StoichiometricAttribute.featurize self comp <> Ok out.
Proof.
  intros self comp Hv Hneg.
  assert (E : StoichiometricAttribute.featurize self comp
              = Raise (ValueError "p-norm not defined for p < 0")).
  { rewrite StoichiometricFacts.featurize_entries. now apply negative_entry_raises. }
  split; [exact E|]. intros out H. rewrite E in H. discriminate.
Qed.

Lemma valid_Fe2O3 : valid_composition Samples.Fe2O3.
Proof.
  constructor.
  - repeat constructor; simpl; intuition discriminate.
  - repeat constructor.
  - reflexivity.
Defined.

Lemma negative_exponent_raises_witness :
  StoichiometricAttribute.featurize (StoichiometricAttribute.mk [2; -1]%Z) Samples.Fe2O3
  = Raise (ValueError "p-norm not defined for p < 0").
Proof.
  apply (negative_exponent_raises (StoichiometricAttribute.mk [2; -1]%Z) valid_Fe2O3).
  exists (-1)%Z. split; [simpl; auto | lia].
Defined.

Lemma Forall2_nth_error {A B} (R : A -> B -> Prop) l1 l2 :
  Forall2 R l1 l2 -> forall i a, nth_error l1 i = Some a ->
  exists b, nth_error l2 i = Some b /\ R a b.
Proof.
  induction 1 as [|x y l1 l2 Hxy _ IH]; intros [|i] a Hi; simpl in *; try discriminate.
  - inversion Hi; subst. now exists y.
  - now apply IH.
Qed.

(** C8. Wherever [p_list] holds the exponent 0, the vector of
    [StoichiometricAttribute.featurize] holds the number of distinct
    elements of the composition; on [Fe2O3] with [p_list = [0]] the vector
    is [[2]]. *)
Theorem zero_exponent_counts_elements :
  (forall (self : StoichiometricAttribute.t) (comp : Composition)
          (out : list value) (i : nat),
      NoDup (keys (el_amt comp)) ->
      StoichiometricAttribute.featurize self comp = Ok out ->
      nth_error (StoichiometricAttribute.p_list self) i = Some 0%Z ->
      nth_error out i = Some (VInt (Z.of_nat (distinct_elements comp))))
  /\ StoichiometricAttribute.featurize (StoichiometricAttribute.mk [0%Z]) Samples.Fe2O3
     = Ok [VInt 2].
Proof.
  split; [|reflexivity].
  intros self comp out i Hnd Hout Hi.
  rewrite StoichiometricFacts.featurize_entries in Hout.
  apply map_result_Forall2 in Hout.
  destruct (Forall2_nth_error Hout i Hi) as [v [Hv Hentry]].
  rewrite Hv. f_equal. unfold norm_entry in Hentry. simpl in Hentry.
  inversion Hentry. f_equal. unfold distinct_elements, py_len, values, keys.
  rewrite nodup_fixed_point by assumption. now rewrite !length_map.
Qed.

Lemma zero_exponent_counts_elements_witness :
  nth_error [VInt 2; VInt 2] 1 = Some (VInt (Z.of_nat (distinct_elements Samples.NaCl))).
Proof.
  apply (proj1 zero_exponent_counts_elements
               (StoichiometricAttribute.mk [0; 0]%Z) Samples.NaCl [VInt 2; VInt 2] 1%nat).
  - repeat constructor; simpl; intuition discriminate.
  - reflexivity.
  - reflexivity.
Defined.

(** ** ValenceOrbitalAttribute *)

(** C7. With the five valence series at hand, a composition whose average
    number of valence electrons per atom is zero (or that has no atom to
    average over) makes [ValenceOrbitalAttribute.featurize] raise
    [ZeroDivisionError]; otherwise the vector is the four fractions
    [avg_s / avg_total], [avg_p / avg_total], [avg_d / avg_total],
    [avg_f / avg_total], in this order. *)
Theorem valence_fractions_or_division_error :
  forall (magpie_data : MagpieData) (comp : Composition) (total s p d f : list Q),
    get_data magpie_data comp "NValance" = Ok total ->
    get_data magpie_data comp "NsValence" = Ok s ->
    get_data magpie_data comp "NpValence" = Ok p ->
    get_data magpie_data comp "NdValence" = Ok d ->
    get_data magpie_data comp "NfValence" = Ok f ->
    let avg := fun series => py_sum series / num_atoms comp in
    ((num_atoms comp == 0 \/ avg total == 0) ->
     ValenceOrbitalAttribute.featurize magpie_data ValenceOrbitalAttribute.mk comp
     = Raise ZeroDivisionError)
    /\ (~ num_atoms comp == 0 -> ~ avg total == 0 ->
        ValenceOrbitalAttribute.featurize magpie_data ValenceOrbitalAttribute.mk comp
        = Ok [VRat (avg s / avg total); VRat (avg p / avg total);
              VRat (avg d / avg total); VRat (avg f / avg total)]).
Proof.
  intros md comp total s p d f Ht Hs Hp Hd Hf avg.
  unfold ValenceOrbitalAttribute.featurize, ValenceOrbitalAttribute.average.
  rewrite Ht, Hs, Hp, Hd, Hf. cbn [bind].
  assert (Hzero : num_atoms comp == 0 ->
                  py_div (py_sum total) (num_atoms comp) = Raise ZeroDivisionError)
    by apply py_div_zero.
  split.
  - intros [Hn|Ha].
    + now rewrite Hzero.
    + destruct (Qeq_dec (num_atoms comp) 0) as [Hn|Hn]; [now rewrite Hzero|].
      rewrite !py_div_nonzero by assumption. cbn [bind].
      now rewrite py_div_zero.
  - intros Hn Ha. rewrite !py_div_nonzero by assumption. cbn [bind].
    now rewrite !py_div_nonzero by assumption.
Qed.

Lemma valence_fractions_or_division_error_witness :
  ValenceOrbitalAttribute.featurize Samples.magpie_data ValenceOrbitalAttribute.mk
    Samples.Fe2O3
  = Ok [VRat ((10 / 5) / (34 / 5)); VRat ((12 / 5) / (34 / 5));
        VRat ((12 / 5) / (34 / 5)); VRat ((0 / 5) / (34 / 5))]
  /\ ValenceOrbitalAttribute.featurize Samples.magpie_data ValenceOrbitalAttribute.mk
       Samples.Mg05F
     = Raise ZeroDivisionError.
Proof.
  split.
  - apply (valence_fractions_or_division_error
             Samples.magpie_data Samples.Fe2O3
             (total := [8; 8; 6; 6; 6]) (s := [2; 2; 2; 2; 2]) (p := [0; 0; 4; 4; 4])
             (d := [6; 6; 0; 0; 0]) (f := [0; 0; 0; 0; 0]));
      try reflexivity; intros H; vm_compute in H; discriminate.
  - apply (valence_fractions_or_division_error
             Samples.magpie_data Samples.Mg05F
             (total := [0]) (s := [0]) (p := [0]) (d := [0]) (f := [0]));
      try reflexivity.
    right. reflexivity.
Defined.

(** ** Label/value alignment *)

Ltac bind_inv H :=
  repeat match type of H with
         | bind ?r _ = Ok _ =>
             let E := fresh "E" in
             destruct r eqn:E; cbn [bind] in H; [|discriminate H]
         | (let '(_, _) := ?p in _) = Ok _ => destruct p
         end.

Lemma for_each_ext {A S} (f g : S -> A -> result S) :
  (forall acc x, f acc x = g acc x) ->
  forall l acc, for_each f l acc = for_each g l acc.
Proof.
  intros Hfg. induction l as [|x l IH]; intros acc; simpl; [reflexivity|].
  rewrite Hfg. destruct (g acc x); simpl; auto.
Qed.

Lemma statistics_length set_iter elem_data st :
  ElementalAttribute.statistics set_iter elem_data = Ok st -> List.length st = 6%nat.
Proof.
  unfold ElementalAttribute.statistics. intros H. bind_inv H.
  now inversion H.
Qed.

Lemma elemental_blocks md set_iter self comp :
  ElementalAttribute.featurize md set_iter self comp
  = (blocks <- map_result (attribute_block md set_iter comp)
                 (ElementalAttribute.attributes self) ;;
     Ok (List.concat blocks)).
Proof.
  unfold ElementalAttribute.featurize.
  rewrite for_each_ext with
    (g := fun acc attr => ys <- attribute_block md set_iter comp attr ;; Ok (acc ++ ys)%list).
  - now rewrite for_each_append.
  - intros acc attr. unfold attribute_block.
    now destruct (get_data md comp attr).
Qed.

Lemma valence_orbital_length md self comp out :
  ValenceOrbitalAttribute.featurize md self comp = Ok out -> List.length out = 4%nat.
Proof.
  unfold ValenceOrbitalAttribute.featurize. intros H. bind_inv H. now inversion H.
Qed.

Lemma ionic_length md self comp out :
  IonicAttribute.featurize md self comp = Ok out -> List.length out = 3%nat.
Proof.
  unfold IonicAttribute.featurize. intros H.
  destruct (_ <? 2)%nat; [now inversion H|].
  bind_inv H. now inversion H.
Qed.

Lemma blocks_length {C} (items : list C) (value_block : C -> result (list value))
      (label_block : C -> list string) blocks :
  Forall2 (fun it b => value_block it = Ok b
                       /\ List.length b = List.length (label_block it)) items blocks ->
  List.length (List.concat blocks) = List.length (flat_map label_block items).
Proof.
  induction 1 as [|it b items blocks [_ Hb] _ IH]; simpl; [reflexivity|].
  now rewrite !length_app, Hb, IH.
Qed.

Lemma stoichiometric_aligned : aligned stoichiometric_featurizer.
Proof.
  intros self c out H. simpl in *.
  rewrite StoichiometricFacts.featurize_entries in H.
  apply map_result_length in H.
  unfold StoichiometricAttribute.generate_labels. now rewrite length_map.
Qed.

Lemma elemental_correspondence md set_iter self comp out :
  ElementalAttribute.featurize md set_iter self comp = Ok out ->
  exists blocks,
    out = List.concat blocks
    /\ Forall2 (fun attr block =>
                  attribute_block md set_iter comp attr = Ok block
                  /\ List.length block = List.length (ElementalAttribute.labels_of attr))
               (ElementalAttribute.attributes self) blocks.
Proof.
  rewrite elemental_blocks. intros H. bind_inv H. inversion H; subst.
  exists a. split; [reflexivity|].
  apply map_result_Forall2 in E.
  revert E. apply Forall2_impl. intros attr b Hb.
  split; [assumption|]. unfold attribute_block in Hb. bind_inv Hb.
  now apply statistics_length in Hb.
Qed.

Lemma elemental_aligned md set_iter : aligned (elemental_featurizer md set_iter).
Proof.
  intros self c out H. simpl in *.
  destruct (elemental_correspondence _ _ _ _ H) as [blocks [-> HF]].
  unfold ElementalAttribute.generate_labels.
  now apply blocks_length with (value_block := attribute_block md set_iter c).
Qed.

Lemma py_div_Ok a b q : py_div a b = Ok q -> q = a / b /\ ~ b == 0.
Proof.
  unfold py_div. destruct (Qeq_bool b 0) eqn:E; [discriminate|].
  intros H. inversion H. split; [reflexivity|].
  intros Hb. apply Qeq_bool_iff in Hb. congruence.
Qed.

Lemma statistics_shape set_iter elem_data st :
  ElementalAttribute.statistics set_iter elem_data = Ok st ->
  exists mn mx mean dev md,
    py_min elem_data = Ok mn /\ py_max elem_data = Ok mx
    /\ py_div (py_sum elem_data) (inject_Z (py_len elem_data)) = Ok mean
    /\ py_div (py_sum (map (fun x => Qabs (x - mean)) elem_data))
               (inject_Z (py_len elem_data)) = Ok dev
    /\ ElementalAttribute.mode set_iter elem_data = Ok md
    /\ st = [VRat mn; VRat mx; VRat (mx - mn); VRat mean; VRat dev; VRat md].
Proof.
  unfold ElementalAttribute.statistics. intros H. bind_inv H. inversion H; subst.
  repeat eexists; eassumption.
Qed.

Lemma valence_orbital_shape md self comp out :
  ValenceOrbitalAttribute.featurize md self comp = Ok out ->
  exists total s p d f,
    ValenceOrbitalAttribute.average md comp "NValance" = Ok total
    /\ ValenceOrbitalAttribute.average md comp "NsValence" = Ok s
    /\ ValenceOrbitalAttribute.average md comp "NpValence" = Ok p
    /\ ValenceOrbitalAttribute.average md comp "NdValence" = Ok d
    /\ ValenceOrbitalAttribute.average md comp "NfValence" = Ok f
    /\ out = [VRat (s / total); VRat (p / total); VRat (d / total); VRat (f / total)].
Proof.
  unfold ValenceOrbitalAttribute.featurize. intros H. bind_inv H. inversion H; subst.
  repeat match goal with
         | E : py_div _ _ = Ok _ |- _ => apply py_div_Ok in E as [-> _]
         end.
  repeat eexists; eassumption.
Qed.

(** ** The mode *)

Section MaxByFacts.
Context {A : Type} (key : A -> nat).

(** [max] returns the first item of maximal key: the items before it
    have smaller keys, those after it have keys that are not larger. *)
Lemma max_by_from_first xs : forall best,
  exists pre post,
    best :: xs = (pre ++ max_by_from key best xs :: post)%list
    /\ Forall (fun x => (key x < key (max_by_from key best xs))%nat) pre
    /\ Forall (fun x => (key x <= key (max_by_from key best xs))%nat) post.
Proof.
  induction xs as [|x xs IH]; intros best; simpl.
  - exists [], []. repeat split; constructor.
  - destruct (Nat.ltb_spec (key best) (key x)) as [Hlt|Hge].
    + destruct (IH x) as [pre [post [E [Hpre Hpost]]]].
      remember (max_by_from key x xs) as m eqn:Em. clear Em.
      assert (Hx : (key x <= key m)%nat).
      { destruct pre as [|y pre]; simpl in E; injection E as Ey Exs.
        - rewrite Ey. lia.
        - subst y. inversion Hpre; subst. lia. }
      exists (best :: pre), post. split; [|split].
      * simpl. now rewrite E.
      * constructor; [lia | assumption].
      * assumption.
    + destruct (IH best) as [pre [post [E [Hpre Hpost]]]].
      remember (max_by_from key best xs) as m eqn:Em. clear Em.
      destruct pre as [|y pre]; simpl in E; injection E as Ey Exs.
      * exists [], (x :: xs). split; [|split].
        -- simpl. now rewrite Ey.
        -- constructor.
        -- constructor; [rewrite <- Ey; lia | now rewrite Exs].
      * subst y. inversion Hpre; subst.
        exists (best :: x :: pre), post. split; [|split].
        -- reflexivity.
        -- repeat constructor; [assumption | lia | assumption].
        -- assumption.
Qed.
End MaxByFacts.

Lemma py_count_Qeq l x y : x == y -> py_count l x = py_count l y.
Proof.
  intros Hxy. unfold py_count. f_equal. apply filter_ext. intros z.
  destruct (Qeq_bool x z) eqn:Ex, (Qeq_bool y z) eqn:Ey; try reflexivity.
  - apply Qeq_bool_iff in Ex. rewrite Hxy in Ex. apply Qeq_bool_iff in Ex. congruence.
  - apply Qeq_bool_iff in Ey. rewrite <- Hxy in Ey. apply Qeq_bool_iff in Ey. congruence.
Qed.

Lemma first_occurrences_set_order : set_order first_occurrences.
Proof.
  intros l. split.
  - intros x Hx. exists x. split; [|reflexivity].
    induction l as [|x0 l IH]; simpl in *; [assumption|].
    destruct Hx as [->|Hx]; [now left|right].
    apply filter_In in Hx as [Hx _]. auto.
  - induction l as [|x0 l IH]; simpl; intros y Hy; [destruct Hy|].
    destruct Hy as [->|Hy].
    + exists y. split; [now left | reflexivity].
    + destruct (IH y Hy) as [x [Hx Hxy]].
      destruct (Qeq_bool x0 x) eqn:E.
      * exists x0. split; [now left|]. apply Qeq_bool_iff in E. now rewrite E.
      * exists x. split; [|assumption]. right. apply filter_In. now rewrite E.
Qed.

Lemma py_count_frequency l v : py_count l v = frequency v l.
Proof.
  unfold py_count. induction l as [|x l IH]; simpl; [reflexivity|].
  assert (E : Qeq_bool v x = Qeq_bool x v).
  { destruct (Qeq_bool v x) eqn:E1, (Qeq_bool x v) eqn:E2; try reflexivity.
    - apply Qeq_bool_iff in E1. symmetry in E1. apply Qeq_bool_iff in E1. congruence.
    - apply Qeq_bool_iff in E2. symmetry in E2. apply Qeq_bool_iff in E2. congruence. }
  rewrite E. destruct (Qeq_bool x v); simpl; now rewrite IH.
Qed.

Lemma frequency_member l v y : In y l -> v == y -> (1 <= frequency v l)%nat.
Proof.
  induction l as [|x l IH]; intros Hin Hvy; [destruct Hin|]. simpl.
  destruct Hin as [->|Hin].
  - symmetry in Hvy. apply Qeq_bool_iff in Hvy. rewrite Hvy. lia.
  - specialize (IH Hin Hvy). lia.
Qed.

Lemma frequency_positive l v :
  (1 <= frequency v l)%nat -> exists y, In y l /\ y == v.
Proof.
  induction l as [|x l IH]; simpl; [lia|].
  destruct (Qeq_bool x v) eqn:E.
  - intros _. exists x. split; [now left | now apply Qeq_bool_iff].
  - intros H. destruct (IH H) as [y [Hy Hyv]]. exists y. split; [now right | assumption].
Qed.

(** The mode is the first item of highest frequency in the iteration
    order of the set. *)
Lemma mode_first_most_frequent (set_iter : list Q -> list Q) (elem_data : list Q) :
  (forall x, In x (set_iter elem_data) -> exists y, In y elem_data /\ x == y) ->
  (forall y, In y elem_data -> exists x, In x (set_iter elem_data) /\ x == y) ->
  elem_data <> [] ->
  exists v pre post,
    ElementalAttribute.mode set_iter elem_data = Ok v
    /\ set_iter elem_data = (pre ++ v :: post)%list
    /\ (1 <= frequency v elem_data)%nat
    /\ (forall x, frequency x elem_data <= frequency v elem_data)%nat
    /\ Forall (fun x => (frequency x elem_data < frequency v elem_data)%nat) pre.
Proof.
  intros Hsound Hcomplete Hne.
  destruct elem_data as [|e0 es]; [congruence|]. clear Hne.
  remember (e0 :: es) as l eqn:El.
  assert (He0 : In e0 l) by (subst l; now left).
  destruct (Hcomplete e0 He0) as [x0 [Hx0 _]].
  unfold ElementalAttribute.mode, py_max_by.
  destruct (set_iter l) as [|x xs] eqn:E; [destruct Hx0|].
  destruct (max_by_from_first (py_count l) xs x) as [pre [post [Esplit [Hpre Hpost]]]].
  remember (max_by_from (py_count l) x xs) as v eqn:Ev. clear Ev.
  exists v, pre, post.
  assert (Hv : In v (x :: xs)) by (rewrite Esplit; apply in_elt).
  destruct (Hsound v Hv) as [yv [Hyv Hvy]].
  split; [reflexivity|]. split; [assumption|].
  split; [exact (@frequency_member l v yv Hyv Hvy)|]. split.
  - intros a. destruct (Nat.le_gt_cases 1 (frequency a l)) as [Hpos|Hzero]; [|lia].
    destruct (frequency_positive l a Hpos) as [y [Hy Hya]].
    destruct (Hcomplete y Hy) as [a' [Ha' Ha'y]].
    assert (Haa' : a' == a) by (rewrite Ha'y; exact Hya).
    rewrite <- !py_count_frequency. rewrite <- (py_count_Qeq l Haa').
    rewrite Esplit in Ha'. apply in_app_or in Ha' as [Hin|[->|Hin]].
    + rewrite Forall_forall in Hpre. specialize (Hpre _ Hin). lia.
    + lia.
    + rewrite Forall_forall in Hpost. now apply Hpost.
  - eapply Forall_impl; [|exact Hpre]. intros a Ha. cbv beta in Ha.
    now rewrite <- !py_count_frequency.
Qed.

(** X20. The mode of [ElementalAttribute.featurize],
    [max(set(elem_data), key=elem_data.count)], is a value of highest
    frequency in the series, and among the values tied for it the one the
    iteration of the set reaches first: every value before it in that
    iteration occurs less often. *)
Theorem mode_is_first_most_frequent :
  forall (set_iter : list Q -> list Q) (elem_data : list Q),
    (forall x, In x (set_iter elem_data) -> exists y, In y elem_data /\ x == y) ->
    (forall y, In y elem_data -> exists x, In x (set_iter elem_data) /\ x == y) ->
    elem_data <> [] ->
    exists v pre post,
      ElementalAttribute.mode set_iter elem_data = Ok v
      /\ set_iter elem_data = (pre ++ v :: post)%list
      /\ (1 <= frequency v elem_data)%nat
      /\ (forall x, frequency x elem_data <= frequency v elem_data)%nat
      /\ Forall (fun x => (frequency x elem_data < frequency v elem_data)%nat) pre.
Proof.
  intros set_iter elem_data. apply mode_first_most_frequent.
Qed.

Lemma mode_is_first_most_frequent_witness :
  exists v pre post,
    ElementalAttribute.mode first_occurrences [1; 2; 2; 1; 3] = Ok v
    /\ first_occurrences [1; 2; 2; 1; 3] = (pre ++ v :: post)%list
    /\ (1 <= frequency v [1; 2; 2; 1; 3]%Q)%nat
    /\ (forall x, (frequency x [1; 2; 2; 1; 3]%Q <= frequency v [1; 2; 2; 1; 3]%Q)%nat)
    /\ Forall (fun x => (frequency x [1; 2; 2; 1; 3]%Q < frequency v [1; 2; 2; 1; 3]%Q)%nat)
              pre.
Proof.
  apply (@mode_is_first_most_frequent first_occurrences [1; 2; 2; 1; 3]).
  - apply (proj1 (first_occurrences_set_order [1; 2; 2; 1; 3])).
  - apply (proj2 (first_occurrences_set_order [1; 2; 2; 1; 3])).
  - discriminate.
Defined.

(** X21. When one value occurs more often than every other value of the
    series, the mode is that value whatever the iteration order of the
    set: only among tied values does the order decide. *)
Theorem untied_mode_independent_of_set_order :
  forall (set_iter1 set_iter2 : list Q -> list Q) (elem_data : list Q) (a : Q),
    (forall x, In x (set_iter1 elem_data) -> exists y, In y elem_data /\ x == y) ->
    (forall y, In y elem_data -> exists x, In x (set_iter1 elem_data) /\ x == y) ->
    (forall x, In x (set_iter2 elem_data) -> exists y, In y elem_data /\ x == y) ->
    (forall y, In y elem_data -> exists x, In x (set_iter2 elem_data) /\ x == y) ->
    In a elem_data ->
    (forall x, ~ x == a -> (frequency x elem_data < frequency a elem_data)%nat) ->
    exists v1 v2,
      ElementalAttribute.mode set_iter1 elem_data = Ok v1
      /\ ElementalAttribute.mode set_iter2 elem_data = Ok v2
      /\ v1 == a /\ v2 == a.
Proof.
  intros set_iter1 set_iter2 l a Hs1 Hc1 Hs2 Hc2 Ha Huntied.
  assert (Hne : l <> []) by (intros ->; destruct Ha).
  destruct (mode_first_most_frequent set_iter1 Hs1 Hc1 Hne)
    as [v1 [_ [_ [E1 [_ [_ [Hmax1 _]]]]]]].
  destruct (mode_first_most_frequent set_iter2 Hs2 Hc2 Hne)
    as [v2 [_ [_ [E2 [_ [_ [Hmax2 _]]]]]]].
  exists v1, v2. split; [exact E1|]. split; [exact E2|].
  split.
  - destruct (Qeq_dec v1 a) as [H|H]; [exact H|].
    specialize (Huntied v1 H). specialize (Hmax1 a). lia.
  - destruct (Qeq_dec v2 a) as [H|H]; [exact H|].
    specialize (Huntied v2 H). specialize (Hmax2 a). lia.
Qed.

Lemma untied_mode_independent_of_set_order_witness :
  exists v1 v2,
    ElementalAttribute.mode first_occurrences [1; 2; 2; 3] = Ok v1
    /\ ElementalAttribute.mode (fun l => List.rev (first_occurrences l)) [1; 2; 2; 3]
       = Ok v2
    /\ v1 == 2 /\ v2 == 2.
Proof.
  apply (@untied_mode_independent_of_set_order
           first_occurrences (fun l => List.rev (first_occurrences l)) [1; 2; 2; 3] 2).
  - apply (proj1 (first_occurrences_set_order [1; 2; 2; 3])).
  - apply (proj2 (first_occurrences_set_order [1; 2; 2; 3])).
  - intros x Hx. apply in_rev in Hx.
    now apply (proj1 (first_occurrences_set_order [1; 2; 2; 3])).
  - intros y Hy.
    destruct (proj2 (first_occurrences_set_order [1; 2; 2; 3]) y Hy) as [x [Hx Hxy]].
    exists x. split; [cbv beta; apply (proj1 (in_rev _ x)); exact Hx | assumption].
  - simpl; auto.
  - intros x Hx.
    assert (E2 : Qeq_bool 2 x = false).
    { apply not_true_is_false. intros H. apply Qeq_bool_iff in H. apply Hx. now symmetry. }
    change (frequency 2 [1; 2; 2; 3]) with 2%nat. cbn [frequency]. rewrite E2.
    destruct (Qeq_bool 1 x) eqn:E1, (Qeq_bool 3 x) eqn:E3; simpl; try lia.
    apply Qeq_bool_iff in E1. apply Qeq_bool_iff in E3.
    rewrite <- E1 in E3. vm_compute in E3. discriminate E3.
Defined.

(** ** Sorting by a key *)

Section SortedByFacts.
Context {A : Type} (key : A -> Q).

Lemma insert_by_permutation x l : Permutation (insert_by key x l) (x :: l).
Proof.
  induction l as [|y l IH]; simpl; [apply Permutation_refl|].
  destruct (Qle_bool (key x) (key y)); [apply Permutation_refl|].
  eapply perm_trans; [apply perm_skip, IH | apply perm_swap].
Qed.

Lemma sorted_by_permutation l : Permutation (sorted_by key l) l.
Proof.
  induction l as [|x l IH]; simpl; [constructor|].
  eapply perm_trans; [apply insert_by_permutation | now apply perm_skip].
Qed.

Lemma insert_by_sorted x l :
  StronglySorted (fun a b => key a <= key b) l -> StronglySorted (fun a b => key a <= key b) (insert_by key x l).
Proof.
  induction 1 as [|y l Hs IH Hy]; simpl.
  - repeat constructor.
  - destruct (Qle_bool (key x) (key y)) eqn:E.
    + apply Qle_bool_iff in E. constructor; [now constructor|].
      constructor; [assumption|].
      eapply Forall_impl; [|exact Hy]. intros z Hz. cbv beta in *.
      now apply Qle_trans with (key y).
    + assert (Hyx : key y <= key x).
      { apply Qlt_le_weak, Qnot_le_lt. intros H. apply Qle_bool_iff in H. congruence. }
      constructor; [assumption|].
      eapply Permutation_Forall; [apply Permutation_sym, insert_by_permutation|].
      now constructor.
Qed.

Lemma sorted_by_sorted l : StronglySorted (fun a b => key a <= key b) (sorted_by key l).
Proof.
  induction l as [|x l IH]; simpl; [constructor | now apply insert_by_sorted].
Qed.

Lemma sorted_by_map {B : Type} (f : B -> A) l :
  map f (sorted_by (fun b => key (f b)) l) = sorted_by key (map f l).
Proof.
  induction l as [|x l IH]; simpl; [reflexivity|]. rewrite <- IH.
  generalize (sorted_by (fun b => key (f b)) l) as s.
  induction s as [|y s IHs]; simpl; [reflexivity|].
  destruct (Qle_bool (key (f x)) (key (f y))); simpl; [reflexivity | now rewrite IHs].
Qed.
End SortedByFacts.

Lemma dict_get_in {V} (d : list (string * V)) k v :
  NoDup (keys d) -> In (k, v) d -> dict_get k d = Ok v.
Proof.
  induction d as [|[k' v'] d IH]; simpl; intros Hnd Hin; [destruct Hin|].
  inversion Hnd as [|? ? Hnotin Hnd']; subst.
  destruct Hin as [E|Hin].
  - inversion E; subst. now rewrite String.eqb_refl.
  - destruct (String.eqb_spec k k') as [->|_]; [|now apply IH].
    exfalso. apply Hnotin. change k' with (fst (k', v)). now apply in_map.
Qed.

Lemma map_result_map {A B C} (f : B -> result C) (h : A -> B) (g : A -> C) l :
  (forall x, In x l -> f (h x) = Ok (g x)) ->
  map_result f (map h l) = Ok (map g l).
Proof.
  induction l as [|x l IH]; simpl; intros H; [reflexivity|].
  rewrite H by now left. simpl. rewrite IH by (intros; apply H; now right).
  reflexivity.
Qed.

(** ** get_pymatgen_descriptor *)

Section DescriptorFacts.
Variable Composition_of_formula : string -> result Composition.
Variable Element : string -> result string.
Variable X : string -> Q.
Variable getattr : string -> string -> option attribute.

(** When the composition is resolved and every element yields a value,
    the series is the per-atom expansion of the element table in
    ascending order of [X]. *)
Lemma descriptor_series composition property_name d oxi (value_of : string -> option Q) :
  resolve Composition_of_formula Element composition = Ok (d, oxi) ->
  NoDup (keys d) ->
  (forall sym, In sym (keys d) ->
               property_value_of getattr oxi property_name sym = Ok (value_of sym)) ->
  get_pymatgen_descriptor Composition_of_formula Element X getattr
                          composition property_name
  = Ok (per_atom value_of (sorted_by (fun ea => X (fst ea)) d)).
Proof.
  intros Hres Hnd Hval. unfold get_pymatgen_descriptor. rewrite Hres. cbn [bind].
  rewrite for_each_ext with
    (g := fun acc sym =>
            ys <- (property_value <- property_value_of getattr oxi property_name sym ;;
                   amt <- dict_get sym d ;;
                   Ok (repeat property_value (Z.to_nat (py_int amt)))) ;;
            Ok (acc ++ ys)%list).
  2:{ intros acc sym.
      destruct (property_value_of getattr oxi property_name sym); [|reflexivity].
      cbn [bind]. now destruct (dict_get sym d). }
  rewrite for_each_append. unfold keys.
  rewrite <- sorted_by_map with (key := X) (f := fst).
  rewrite map_result_map with
    (g := fun ea => repeat (value_of (fst ea)) (Z.to_nat (py_int (snd ea)))).
  - cbn [bind]. unfold per_atom. now rewrite flat_map_concat_map.
  - intros [k a] Hin.
    assert (Hin' : In (k, a) d)
      by (eapply Permutation_in; [apply sorted_by_permutation | exact Hin]).
    cbn [fst snd]. rewrite Hval by (change k with (fst (k, a)); now apply in_map).
    cbn [bind]. now rewrite (@dict_get_in _ d k a Hnd Hin').
Qed.
End DescriptorFacts.

Lemma per_atom_length {A} (value_of : string -> A) l :
  List.length (per_atom value_of l)
  = list_sum (map (fun ea => Z.to_nat (py_int (snd ea))) l).
Proof.
  unfold per_atom. induction l as [|ea l IH]; simpl; [reflexivity|].
  now rewrite length_app, repeat_length, IH.
Qed.

Lemma list_sum_permutation l1 l2 : Permutation l1 l2 -> list_sum l1 = list_sum l2.
Proof. induction 1; simpl; lia. Qed.

Lemma py_int_nonneg q : 0 <= q -> py_int q = Qfloor q.
Proof.
  destruct q as [n d]. unfold Qle, py_int, Qfloor. simpl. intros H.
  apply Z.quot_div_nonneg; lia.
Qed.

Lemma py_int_nonpos q : q <= 0 -> py_int q = Qceiling q.
Proof.
  destruct q as [n d]. unfold Qle, py_int, Qceiling, Qfloor. simpl. intros H.
  rewrite <- (Z.opp_involutive n) at 1.
  rewrite Z.quot_opp_l by lia. f_equal. apply Z.quot_div_nonneg; lia.
Qed.

Lemma py_int_below_one q : q < 1 -> Z.to_nat (py_int q) = 0%nat.
Proof.
  intros H1. destruct (Qlt_le_dec q 0) as [Hneg|Hpos].
  - rewrite py_int_nonpos by now apply Qlt_le_weak.
    pose proof (Qceiling_lt q) as Hc.
    assert (Hlt : inject_Z (Qceiling q - 1) < inject_Z 0)
      by (eapply Qlt_trans; [exact Hc | exact Hneg]).
    rewrite <- Zlt_Qlt in Hlt. lia.
  - rewrite py_int_nonneg by assumption.
    pose proof (Qfloor_le q) as Hf.
    assert (Hlt : inject_Z (Qfloor q) < inject_Z 1)
      by (eapply Qle_lt_trans; [exact Hf | exact H1]).
    rewrite <- Zlt_Qlt in Hlt. lia.
Qed.

(** C10. In the series of [get_pymatgen_descriptor] every element
    contributes exactly [int(amount)] entries, [int] truncating toward
    zero: an amount below 1, such as 0.5, contributes none, and 2.7
    contributes 2. *)
Theorem truncated_atom_counts :
  (forall (Composition_of_formula : string -> result Composition)
          (Element : string -> result string) (X : string -> Q)
          (getattr : string -> string -> option attribute)
          composition property_name d oxi (value_of : string -> option Q),
      resolve Composition_of_formula Element composition = Ok (d, oxi) ->
      NoDup (keys d) ->
      (forall sym, In sym (keys d) ->
                   property_value_of getattr oxi property_name sym = Ok (value_of sym)) ->
      get_pymatgen_descriptor Composition_of_formula Element X getattr
                              composition property_name
      = Ok (flat_map (fun ea => repeat (value_of (fst ea)) (Z.to_nat (py_int (snd ea))))
                     (sorted_by (fun ea => X (fst ea)) d)))
  /\ (forall q, 0 <= q -> inject_Z (py_int q) <= q /\ q < inject_Z (py_int q + 1))
  /\ (forall q, q <= 0 -> q <= inject_Z (py_int q) /\ inject_Z (py_int q - 1) < q)
  /\ (forall q, q < 1 -> Z.to_nat (py_int q) = 0%nat)
  /\ Z.to_nat (py_int (1 # 2)) = 0%nat
  /\ Z.to_nat (py_int (27 # 10)) = 2%nat
  /\ get_pymatgen_descriptor Samples.Composition_of_formula Samples.Element
       Samples.X Samples.getattr (AsComposition Samples.Fe05O27) "X"
     = Ok [Some (344 # 100); Some (344 # 100)].
Proof.
  split; [|split; [|split; [|split; [|split; [|split]]]]]; try reflexivity.
  - intros. now apply descriptor_series with (oxi := oxi).
  - intros q Hq. rewrite py_int_nonneg by assumption.
    split; [apply Qfloor_le | apply Qlt_floor].
  - intros q Hq. rewrite py_int_nonpos by assumption.
    split; [apply Qle_ceiling | apply Qceiling_lt].
  - apply py_int_below_one.
Qed.

Lemma truncated_atom_counts_witness :
  get_pymatgen_descriptor Samples.Composition_of_formula Samples.Element
    Samples.X Samples.getattr (AsComposition Samples.Fe05O27) "atomic_mass"
  = Ok [Some (15999 # 1000); Some (15999 # 1000)]
  /\ Z.to_nat (py_int (3 # 4)) = 0%nat.
Proof.
  destruct truncated_atom_counts as [Hseries [_ [_ [Hsmall _]]]].
  split.
  - apply (Hseries Samples.Composition_of_formula Samples.Element Samples.X
                   Samples.getattr (AsComposition Samples.Fe05O27) "atomic_mass"%string
                   (el_amt Samples.Fe05O27) []
                   (fun sym => Some (if String.eqb sym "Fe" then 55845 # 1000
                                     else 15999 # 1000))).
    + reflexivity.
    + repeat constructor; simpl; intuition discriminate.
    + intros sym [<-|[<-|[]]]; reflexivity.
  - apply Hsmall. reflexivity.
Defined.

(** C5, as amended.  Whenever the composition is resolved and every
    element yields a property value, [get_pymatgen_descriptor] returns the
    series of one identical entry per atom of each element: the elements in
    ascending order of electronegativity, each contributing its value
    [int(amount)] times, so that the length is the sum of the truncated
    amounts. *)
Theorem descriptor_series_shape :
  forall (Composition_of_formula : string -> result Composition)
         (Element : string -> result string) (X : string -> Q)
         (getattr : string -> string -> option attribute)
         composition property_name d oxi (value_of : string -> option Q),
    resolve Composition_of_formula Element composition = Ok (d, oxi) ->
    NoDup (keys d) ->
    (forall sym, In sym (keys d) ->
                 property_value_of getattr oxi property_name sym = Ok (value_of sym)) ->
    exists ordered series,
      get_pymatgen_descriptor Composition_of_formula Element X getattr
                              composition property_name = Ok series
      /\ Permutation ordered d
      /\ StronglySorted (fun e1 e2 => X (fst e1) <= X (fst e2)) ordered
      /\ series = flat_map (fun ea => repeat (value_of (fst ea))
                                             (Z.to_nat (py_int (snd ea)))) ordered
      /\ List.length series = list_sum (map (fun ea => Z.to_nat (py_int (snd ea))) d).
Proof.
  intros Cof El X getattr composition property_name d oxi value_of Hres Hnd Hval.
  exists (sorted_by (fun ea => X (fst ea)) d).
  exists (per_atom value_of (sorted_by (fun ea => X (fst ea)) d)).
  split; [now apply descriptor_series with (oxi := oxi)|].
  split; [apply sorted_by_permutation|].
  split; [apply (sorted_by_sorted (fun ea => X (fst ea)))|].
  split; [reflexivity|].
  rewrite per_atom_length. apply list_sum_permutation, Permutation_map,
    sorted_by_permutation.
Qed.

Lemma descriptor_series_shape_witness :
  exists ordered series,
    get_pymatgen_descriptor Samples.Composition_of_formula Samples.Element
      Samples.X Samples.getattr (AsString "Fe2+3O3-2") "ionic_radii" = Ok series
    /\ Permutation ordered (el_amt Samples.Fe2O3)
    /\ StronglySorted (fun e1 e2 => Samples.X (fst e1) <= Samples.X (fst e2)) ordered
    /\ series = flat_map (fun ea => repeat (if String.eqb (fst ea) "Fe"
                                            then Some (785 # 1000) else Some (126 # 100))
                                           (Z.to_nat (py_int (snd ea)))) ordered
    /\ List.length series = 5%nat.
Proof.
  apply (descriptor_series_shape Samples.Composition_of_formula Samples.Element
           Samples.X Samples.getattr (AsString "Fe2+3O3-2") "ionic_radii"%string
           (d := el_amt Samples.Fe2O3)
           (oxi := [("Fe"%string, 3%Z); ("O"%string, (-2)%Z)])
           (fun sym => if String.eqb sym "Fe" then Some (785 # 1000)
                       else Some (126 # 100))).
  - reflexivity.
  - repeat constructor; simpl; intuition discriminate.
  - intros sym [<-|[<-|[]]]; reflexivity.
Defined.

(** C5, as stated, fails: [ionic_radii] is an attribute of every element,
    yet on a composition of plain elements the function raises instead of
    returning a series. *)
Lemma ionic_radii_without_oxidation_states_raises :
  Samples.getattr "Fe" "ionic_radii" <> None
  /\ Samples.getattr "O" "ionic_radii" <> None
  /\ ~ (exists series,
          get_pymatgen_descriptor Samples.Composition_of_formula Samples.Element
            Samples.X Samples.getattr (AsComposition Samples.Fe2O3) "ionic_radii"
          = Ok series).
Proof.
  split; [discriminate|]. split; [discriminate|].
  intros [series H]. vm_compute in H. discriminate.
Qed.

(** ** IonicAttribute *)


Lemma ionic_character_same x : IonicAttribute.ionic_character x x = 0%R.
Proof.
  unfold IonicAttribute.ionic_character.
  assert (E : - (1 # 4) * (x - x) ^ 2 == 0) by (simpl; ring).
  rewrite (Qeq_eqR _ _ E), RMicromega.Q2R_0, exp_0. ring.
Qed.

Lemma ionic_character_positive x y : ~ x == y -> (0 < IonicAttribute.ionic_character x y)%R.
Proof.
  intros Hxy. unfold IonicAttribute.ionic_character.
  assert (Hneg : - (1 # 4) * (x - y) ^ 2 < 0).
  { assert (Hd : ~ x - y == 0) by (intros H; apply Hxy; Lqa.lra).
    assert (0 < (x - y) ^ 2); [|Lqa.lra].
    simpl. destruct (Qlt_le_dec 0 (x - y)) as [Hpos|Hle]; [Lqa.nra|].
    assert (x - y < 0) by (apply Qle_lteq in Hle as [|]; [assumption | contradiction]).
    Lqa.nra. }
  apply Qlt_Rlt in Hneg. rewrite RMicromega.Q2R_0 in Hneg.
  apply exp_increasing in Hneg. rewrite exp_0 in Hneg. Lra.lra.
Qed.

Lemma py_index_of_nat {A} (l : list A) i :
  py_index l (Z.of_nat i)
  = match nth_error l i with Some a => Ok a | None => Raise IndexError end.
Proof.
  unfold py_index.
  assert (E : (Z.of_nat i <? 0)%Z = false) by (apply Z.ltb_ge; lia).
  now rewrite !E, Nat2Z.id.
Qed.

Lemma Mg05F_features :
  IonicAttribute.featurize Samples.magpie_data IonicAttribute.mk Samples.Mg05F
  = Ok [VBool false; VFloat 0; VFloat 0].
Proof.
  unfold IonicAttribute.featurize.
  change (get_data Samples.magpie_data Samples.Mg05F "Electronegativity")
    with (Ok [398 # 100]).
  cbn [bind].
  change (get_data_oxidation_states Samples.magpie_data Samples.Mg05F) with [[(-1)%Z]].
  change (values (el_amt Samples.Mg05F)) with [1 # 2; 1].
  change (keys (el_amt Samples.Mg05F)) with ["Mg"%string; "F"%string].
  cbn [List.length Nat.ltb Nat.leb].
  change (for_each (IonicAttribute.pick [1 # 2; 1] [[(-1)%Z]] [398 # 100]) (seq 1 2) ([], []))
    with (Ok ([[(-1)%Z]; [(-1)%Z]], [398 # 100; 398 # 100])).
  cbn [bind].
  change (IonicAttribute.neutral_search (product [[(-1)%Z]; [(-1)%Z]]) [1 # 2; 1]) with false.
  change (combinations2 2) with [(0%nat, 1%nat)].
  cbn [for_each bind].
  unfold IonicAttribute.pair_step. rewrite !py_index_of_nat.
  cbn [fst snd map nth_error bind app IonicAttribute.np_max fold_left].
  rewrite ionic_character_same.
  repeat f_equal. ring.
Qed.

Lemma Mg05F_neutral_choice : spec_compound_possible Samples.magpie_data Samples.Mg05F.
Proof.
  exists [2; -1]%Z. split; [|reflexivity].
  repeat constructor.
Qed.

(** Whatever series the provider returns, the loop reads one and the same
    entry for magnesium and for fluorine: both indices are 0.  The two
    elements then share their oxidation states and their electronegativity,
    and the character of the pair is 0. *)
Lemma Mg05F_picks_one_entry (all_ox_states : list (list Z)) (all_elec : list Q)
      ox_states elec :
  for_each (IonicAttribute.pick (values (el_amt Samples.Mg05F)) all_ox_states all_elec)
           (seq 1 2) ([], [])
  = Ok (ox_states, elec) ->
  exists o e, ox_states = [o; o] /\ elec = [e; e]
              /\ IonicAttribute.ionic_character e e = 0%R.
Proof.
  cbn [for_each seq]. unfold IonicAttribute.pick.
  change (py_int (py_sum (firstn 1 (values (el_amt Samples.Mg05F))) - 1)) with 0%Z.
  change (py_int (py_sum (firstn 2 (values (el_amt Samples.Mg05F))) - 1)) with 0%Z.
  destruct (py_index all_ox_states 0) as [o|]; [|discriminate].
  destruct (py_index all_elec 0) as [e|]; [|discriminate].
  cbn. intros H. inversion H. exists o, e.
  split; [reflexivity|]. split; [reflexivity | apply ionic_character_same].
Qed.

(** C1 fails on [Mg0.5F]: magnesium (+2) and fluorine (-1) in the amounts
    0.5 and 1 are neutral, yet [featurize] reports that no neutral compound
    is possible.  The index [int(sum(values[:i]) - 1)] is 0 for both
    elements, so the fluorine entry of the per-atom series stands for
    magnesium too. *)
Theorem neutral_compound_missed_for_fractional_amounts :
  spec_compound_possible Samples.magpie_data Samples.Mg05F
  /\ exists max_ionic_char avg_ionic_char,
       IonicAttribute.featurize Samples.magpie_data IonicAttribute.mk Samples.Mg05F
       = Ok [VBool false; VFloat max_ionic_char; VFloat avg_ionic_char].
Proof.
  split; [apply Mg05F_neutral_choice|].
  exists 0%R, 0%R. apply Mg05F_features.
Qed.

(** C2 fails on [Mg0.5F]: the ionic character of the pair Mg-F is
    positive, and so are the maximum and the fraction-weighted sum of the
    specification, yet [featurize] returns 0 for both, the electronegativity
    of fluorine standing for both elements. *)
Theorem ionic_character_lost_for_fractional_amounts :
  IonicAttribute.featurize Samples.magpie_data IonicAttribute.mk Samples.Mg05F
  = Ok [VBool false; VFloat 0; VFloat 0]
  /\ (exists m, spec_max_ionic_char Samples.X Samples.Mg05F = Ok m /\ (0 < m)%R)
  /\ (0 < spec_avg_ionic_char Samples.X Samples.Mg05F)%R.
Proof.
  split; [apply Mg05F_features|].
  assert (Hc : (0 < IonicAttribute.ionic_character (Samples.X "Mg") (Samples.X "F"))%R).
  { apply ionic_character_positive. intros H. vm_compute in H. discriminate. }
  split.
  - eexists. split; [reflexivity|]. exact Hc.
  - unfold spec_avg_ionic_char, Rsum.
    cbn [el_amt Samples.Mg05F unordered_pairs map app fold_right fst snd values].
    rewrite Rplus_0_r.
    apply Rmult_lt_0_compat; [|exact Hc].
    apply Rmult_lt_0_compat; (rewrite <- RMicromega.Q2R_0; apply Qlt_Rlt; reflexivity).
Qed.

(** *** The featurizer on whole amounts in series order *)

Section SortedFixpoint.
Context {A : Type} (key : A -> Q).

Lemma insert_by_head x l :
  Forall (fun y => key x <= key y) l -> insert_by key x l = x :: l.
Proof.
  destruct l as [|y l]; simpl; [reflexivity|]. intros H. inversion H; subst.
  assert (E : Qle_bool (key x) (key y) = true) by now apply Qle_bool_iff.
  now rewrite E.
Qed.

Lemma sorted_by_of_sorted l :
  StronglySorted (fun a b => key a <= key b) l -> sorted_by key l = l.
Proof.
  induction 1 as [|x l Hs IH Hx]; simpl; [reflexivity|].
  rewrite IH. now apply insert_by_head.
Qed.
End SortedFixpoint.

Lemma whole_atoms a :
  whole a ->
  a == inject_Z (Z.of_nat (Z.to_nat (py_int a))) /\ (1 <= Z.to_nat (py_int a))%nat.
Proof.
  intros [z [Hz Ha]].
  assert (Hint : py_int a = z).
  { rewrite py_int_nonneg.
    - now rewrite Ha, Qfloor_Z.
    - rewrite Ha. change 0 with (inject_Z 0). rewrite <- Zle_Qle. lia. }
  rewrite Hint. split; [|lia]. rewrite Z2Nat.id by lia. assumption.
Qed.

Lemma Qsum_snoc l a : Qsum (l ++ [a]) = Qsum l + a.
Proof. unfold Qsum. now rewrite fold_left_app. Qed.

Lemma Qsum_whole l :
  Forall whole l ->
  Qsum l == inject_Z (Z.of_nat (list_sum (map (fun a => Z.to_nat (py_int a)) l))).
Proof.
  induction l as [|a l IH] using rev_ind; intros H; [reflexivity|].
  apply Forall_app in H as [Hl Ha]. inversion Ha; subst.
  rewrite Qsum_snoc, map_app, list_sum_app. simpl.
  rewrite Nat.add_0_r, Nat2Z.inj_add, inject_Z_plus, <- IH by assumption.
  apply Qplus_comp; [reflexivity|]. now apply whole_atoms.
Qed.

Lemma per_atom_app {A} (f : string -> A) l1 l2 :
  per_atom f (l1 ++ l2) = (per_atom f l1 ++ per_atom f l2)%list.
Proof. unfold per_atom. apply flat_map_app. Qed.

(** The index the loop computes for the element after [pre] is that of
    the last atom of this element in the series. *)
Lemma pick_index {A} (f : string -> A) pre ea post :
  Forall whole (values (pre ++ [ea])) ->
  py_index (per_atom f (pre ++ ea :: post))
           (py_int (py_sum (firstn (S (List.length pre)) (values (pre ++ ea :: post))) - 1))
  = Ok (f (fst ea)).
Proof.
  intros Hw.
  assert (Hfirst : firstn (S (List.length pre)) (values (pre ++ ea :: post))
                   = values (pre ++ [ea])).
  { unfold values. rewrite !map_app. cbn [map].
    replace (S (List.length pre)) with (List.length (map snd pre) + 1)%nat
      by (rewrite length_map; lia).
    now rewrite firstn_app_2. }
  rewrite Hfirst.
  pose proof (Qsum_whole Hw) as Hsum.
  unfold values in Hw, Hsum. rewrite map_app in Hw, Hsum. simpl in Hw, Hsum.
  apply Forall_app in Hw as [_ Hea]. inversion Hea as [|? ? Hwa _]; subst.
  destruct (whole_atoms Hwa) as [_ Hone].
  rewrite map_app, list_sum_app in Hsum. simpl in Hsum. rewrite Nat.add_0_r in Hsum.
  set (before := list_sum (map (fun a => Z.to_nat (py_int a)) (map snd pre))) in *.
  set (n := Z.to_nat (py_int (snd ea))) in *.
  assert (Hind : py_int (py_sum (values (pre ++ [ea])) - 1)
                 = Z.of_nat (before + n - 1)).
  { unfold py_sum, values. rewrite map_app. simpl.
    assert (E : Qsum (map snd pre ++ [snd ea]) - 1 == inject_Z (Z.of_nat (before + n - 1))).
    { rewrite Hsum.
      replace (Z.of_nat (before + n - 1)) with (Z.of_nat (before + n) + (-1))%Z by lia.
      rewrite inject_Z_plus. reflexivity. }
    rewrite py_int_nonneg.
    - now rewrite E, Qfloor_Z.
    - rewrite E. change 0 with (inject_Z 0). rewrite <- Zle_Qle. lia. }
  rewrite Hind, py_index_of_nat, per_atom_app.
  assert (Hlen : List.length (per_atom f pre) = before).
  { rewrite per_atom_length. unfold before. now rewrite map_map. }
  rewrite nth_error_app2 by lia. rewrite Hlen.
  replace (before + n - 1 - before)%nat with (n - 1)%nat by lia.
  unfold per_atom. simpl. fold n.
  rewrite nth_error_app1 by (rewrite repeat_length; lia).
  now rewrite nth_error_repeat by lia.
Qed.

(** The loop over [range(1, len(values) + 1)] collects the data of the
    elements in dictionary order. *)
Lemma pick_loop (oxf : string -> list Z) (Xp : string -> Q) post : forall pre acc,
  Forall whole (values (pre ++ post)) ->
  for_each (IonicAttribute.pick (values (pre ++ post))
              (per_atom oxf (pre ++ post)) (per_atom Xp (pre ++ post)))
           (seq (S (List.length pre)) (List.length post)) acc
  = Ok ((fst acc ++ map (fun ea => oxf (fst ea)) post)%list,
        (snd acc ++ map (fun ea => Xp (fst ea)) post)%list).
Proof.
  induction post as [|ea post IH]; intros pre acc Hw; simpl.
  - rewrite !app_nil_r. now destruct acc.
  - unfold IonicAttribute.pick at 1.
    assert (Hpre : Forall whole (values (pre ++ [ea]))).
    { unfold values in *. rewrite map_app in *. simpl in *.
      apply Forall_app in Hw as [Hp Hrest]. inversion Hrest; subst.
      apply Forall_app. split; [assumption | now constructor]. }
    rewrite !pick_index by assumption. cbn [bind].
    replace (pre ++ ea :: post)%list with ((pre ++ [ea]) ++ post)%list in *
      by now rewrite <- app_assoc.
    replace (S (List.length pre)) with (List.length (pre ++ [ea]))
      by (rewrite length_app; simpl; lia).
    rewrite IH by assumption. cbn [fst snd].
    now rewrite <- !app_assoc.
Qed.

Lemma in_product {A} (ls : list (list A)) : forall xs,
  In xs (product ls) <-> Forall2 (fun l x => In x l) ls xs.
Proof.
  induction ls as [|l ls IH]; intros xs; simpl.
  - split.
    + intros [<-|[]]. constructor.
    + intros H. inversion H. now left.
  - rewrite in_flat_map. split.
    + intros [x [Hx Hin]]. apply in_map_iff in Hin as [ys [<- Hys]].
      constructor; [assumption | now apply IH].
    + intros H. inversion H as [|l' x ls' ys Hx Hys]; subst.
      exists x. split; [assumption|]. apply in_map, IH. assumption.
Qed.

Lemma neutral_search_true ox_sets vals :
  IonicAttribute.neutral_search ox_sets vals = true
  <-> exists ox, In ox ox_sets /\ np_dot ox vals == 0.
Proof.
  induction ox_sets as [|ox rest IH]; simpl.
  - split; [discriminate | now intros [ox [[] _]]].
  - destruct (Qeq_bool (np_dot ox vals) 0) eqn:E.
    + split; [|reflexivity]. intros _. exists ox. split; [now left|].
      now apply Qeq_bool_iff.
    + rewrite IH. split.
      * intros [ox' [Hin H0]]. exists ox'. split; [now right | assumption].
      * intros [ox' [[<-|Hin] H0]].
        -- apply Qeq_bool_iff in H0. congruence.
        -- now exists ox'.
Qed.

Lemma Forall2_map_left {A B C} (R : B -> C -> Prop) (g : A -> B) l : forall xs,
  Forall2 R (map g l) xs <-> Forall2 (fun a x => R (g a) x) l xs.
Proof.
  induction l as [|a l IH]; intros xs; simpl.
  - split; intros H; inversion H; constructor.
  - split; intros H; inversion H; subst; constructor; try assumption; now apply IH.
Qed.

Lemma map_of_flat_map {A B C} (f : B -> C) (g : A -> list B) l :
  map f (flat_map g l) = flat_map (fun x => map f (g x)) l.
Proof. induction l as [|x l IH]; simpl; [reflexivity|]. now rewrite map_app, IH. Qed.

Lemma flat_map_of_map {A B C} (f : B -> list C) (g : A -> B) l :
  flat_map f (map g l) = flat_map (fun x => f (g x)) l.
Proof. induction l as [|x l IH]; simpl; [reflexivity|]. now rewrite IH. Qed.

(** The pairs of positions enumerate the unordered pairs of the list. *)
Lemma combinations2_succ n :
  combinations2 (S n)
  = (map (pair 0%nat) (seq 1 n)
     ++ map (fun ij => (S (fst ij), S (snd ij))) (combinations2 n))%list.
Proof.
  unfold combinations2. cbn [seq flat_map].
  replace (S n - 1)%nat with n by lia. f_equal.
  rewrite <- seq_shift, flat_map_of_map, map_of_flat_map.
  apply flat_map_ext. intros i. cbn [Nat.sub].
  rewrite <- seq_shift, !map_map. reflexivity.
Qed.

Lemma nth_error_seq {A} (l : list A) :
  map (nth_error l) (seq 0 (List.length l)) = map Some l.
Proof.
  induction l as [|x l IH]; simpl; [reflexivity|].
  f_equal. now rewrite <- seq_shift, map_map.
Qed.

Lemma positions_of_pairs {A} (l : list A) :
  map (fun ij => (nth_error l (fst ij), nth_error l (snd ij)))
      (combinations2 (List.length l))
  = map (fun ab => (Some (fst ab), Some (snd ab))) (unordered_pairs l).
Proof.
  induction l as [|x l IH]; [reflexivity|].
  cbn [List.length unordered_pairs]. rewrite combinations2_succ, !map_app, !map_map.
  cbn [fst snd nth_error]. f_equal; [|exact IH].
  rewrite <- seq_shift, map_map. cbn [nth_error].
  change (fun x0 : nat => (Some x, nth_error l x0))
    with (fun x0 : nat => (fun o : option A => (Some x, o)) (nth_error l x0)).
  rewrite <- map_map with (f := nth_error l), nth_error_seq, map_map. reflexivity.
Qed.

Lemma fold_left_Rsum {A} (term : A -> R) l : forall s,
  fold_left (fun s x => (s + term x)%R) l s = (s + Rsum (map term l))%R.
Proof.
  induction l as [|x l IH]; intros s; simpl.
  - unfold Rsum; simpl; ring.
  - rewrite IH. unfold Rsum; simpl. ring.
Qed.

Lemma pair_loop {A} (fX fF : A -> Q) (d : list A) :
  forall pairs ups acc,
    map (fun ij => (nth_error d (fst ij), nth_error d (snd ij))) pairs
    = map (fun ab => (Some (fst ab), Some (snd ab))) ups ->
    for_each (IonicAttribute.pair_step (map fX d) (map fF d)) pairs acc
    = Ok ((fst acc
           ++ map (fun ab => IonicAttribute.ionic_character (fX (fst ab)) (fX (snd ab)))
                  ups)%list,
          fold_left (fun s ab =>
                       (s + Q2R (fF (fst ab)) * Q2R (fF (snd ab))
                            * IonicAttribute.ionic_character (fX (fst ab)) (fX (snd ab)))%R)
                    ups (snd acc)).
Proof.
  induction pairs as [|ij pairs IH]; intros [|ab ups] acc Hpos; simpl in Hpos;
    try discriminate.
  - simpl. rewrite app_nil_r. now destruct acc.
  - injection Hpos as Ha Hb Hrest. cbn [for_each].
    unfold IonicAttribute.pair_step at 1.
    rewrite !py_index_of_nat, !nth_error_map, Ha, Hb. cbn [option_map bind].
    rewrite (IH ups) by assumption. cbn [fst snd map fold_left].
    now rewrite <- app_assoc.
Qed.

Lemma unordered_pairs_nonempty {A} (l : list A) :
  (2 <= List.length l)%nat -> unordered_pairs l <> [].
Proof.
  destruct l as [|x [|y l]]; simpl; try lia. discriminate.
Qed.

(** X6. On a composition of at least two elements whose amounts are whole
    numbers and whose dictionary lists the elements in the order of the
    series, [IonicAttribute.featurize] returns what the specification
    says: whether a neutral choice of oxidation states exists, the maximal
    pair character and the fraction-weighted sum of the pair characters. *)
Lemma ionic_attributes_of_whole_amounts :
  forall (magpie_data : MagpieData) (comp : Composition) (Xp : string -> Q),
    (2 <= List.length (el_amt comp))%nat ->
    whole_amounts comp ->
    StronglySorted (fun e1 e2 => electronegativity magpie_data (fst e1)
                                 <= electronegativity magpie_data (fst e2))
                   (el_amt comp) ->
    numeric_property magpie_data "Electronegativity" = Some Xp ->
    exists cpd_possible max_ionic_char,
      IonicAttribute.featurize magpie_data IonicAttribute.mk comp
      = Ok [VBool cpd_possible; VFloat max_ionic_char;
            VFloat (spec_avg_ionic_char Xp comp)]
      /\ (cpd_possible = true <-> spec_compound_possible magpie_data comp)
      /\ spec_max_ionic_char Xp comp = Ok max_ionic_char.
Proof.
  intros md comp Xp Hlen Hwhole Hsorted HX.
  destruct (spec_max_ionic_char Xp comp) as [mx|e] eqn:Emax.
  2:{ exfalso. pose proof (unordered_pairs_nonempty (el_amt comp) Hlen) as Hne.
      unfold spec_max_ionic_char, spec_pair_characters in Emax.
      destruct (unordered_pairs (el_amt comp)); [congruence | discriminate]. }
  exists (IonicAttribute.neutral_search
            (product (map (fun ea => oxidation_states_of md (fst ea)) (el_amt comp)))
            (values (el_amt comp))), mx.
  split; [|split; [|reflexivity]].
  - unfold IonicAttribute.featurize, get_data, get_data_oxidation_states.
    rewrite HX, (sorted_by_of_sorted (fun ea => electronegativity md (fst ea)) Hsorted).
    cbv zeta. unfold keys. rewrite length_map.
    assert (Hlt : (List.length (el_amt comp) <? 2)%nat = false)
      by (apply Nat.ltb_ge; lia).
    rewrite Hlt. cbn [bind].
    pose proof (pick_loop (oxidation_states_of md) Xp (el_amt comp) [] ([], []) Hwhole)
      as Hpick.
    cbn [app List.length fst snd] in Hpick.
    replace (List.length (values (el_amt comp))) with (List.length (el_amt comp))
      by (unfold values; now rewrite length_map).
    rewrite Hpick. cbn [bind].
    change (map (fun v : Q => v / py_sum (values (el_amt comp))) (values (el_amt comp)))
      with (map (fun v : Q => v / py_sum (values (el_amt comp)))
                (map snd (el_amt comp))).
    rewrite map_map.
    rewrite (pair_loop (fun ea => Xp (fst ea))
                       (fun ea => snd ea / py_sum (values (el_amt comp)))
                       (el_amt comp) _ (unordered_pairs (el_amt comp)) ([], 0%R)
                       (positions_of_pairs (el_amt comp))).
    cbn [bind fst snd app]. rewrite fold_left_Rsum, Rplus_0_l.
    unfold spec_max_ionic_char, spec_pair_characters in Emax. rewrite Emax.
    cbn [bind]. reflexivity.
  - rewrite neutral_search_true. unfold spec_compound_possible. split.
    + intros [ox [Hin H0]]. exists ox. split; [|assumption].
      apply in_product in Hin. now apply Forall2_map_left in Hin.
    + intros [ox [Hin H0]]. exists ox. split; [|assumption].
      apply in_product. now apply Forall2_map_left.
Qed.

Lemma ionic_attributes_of_Fe2O3 :
  exists max_ionic_char,
    IonicAttribute.featurize Samples.magpie_data IonicAttribute.mk Samples.Fe2O3
    = Ok [VBool true; VFloat max_ionic_char;
          VFloat (spec_avg_ionic_char Samples.X Samples.Fe2O3)].
Proof.
  assert (Hlen : (2 <= List.length (el_amt Samples.Fe2O3))%nat) by (simpl; lia).
  assert (Hwhole : whole_amounts Samples.Fe2O3).
  { repeat constructor; [exists 2%Z | exists 3%Z]; split; try lia; reflexivity. }
  assert (Hsorted : StronglySorted
                      (fun e1 e2 => electronegativity Samples.magpie_data (fst e1)
                                    <= electronegativity Samples.magpie_data (fst e2))
                      (el_amt Samples.Fe2O3)).
  { repeat constructor; simpl; discriminate. }
  destruct (@ionic_attributes_of_whole_amounts
              Samples.magpie_data Samples.Fe2O3 Samples.X Hlen Hwhole Hsorted eq_refl)
    as [cpd [mx [Hout [Hcpd _]]]].
  exists mx. rewrite Hout. repeat f_equal. apply Hcpd.
  exists [3; -2]%Z. split; [|reflexivity].
  constructor; [simpl; auto|]. constructor; [simpl; auto | constructor].
Defined.

(** ** When the featurizers return *)

Lemma stoichiometric_featurize_defined self comp :
  valid_composition comp ->
  Forall (fun p => (0 <= p)%Z) (StoichiometricAttribute.p_list self) ->
  exists out, StoichiometricAttribute.featurize self comp = Ok out.
Proof.
  intros Hv Hp. rewrite StoichiometricFacts.featurize_entries.
  induction (StoichiometricAttribute.p_list self) as [|p pl IH]; simpl; [now eexists|].
  inversion Hp as [|? ? Hp0 Hpl]; subst.
  destruct (norm_entry_cases p Hv) as [[Hneg _]|[_ [v ->]]]; [lia|].
  destruct (IH Hpl) as [out ->]. simpl. now eexists.
Qed.

Lemma statistics_defined set_iter elem_data :
  set_order set_iter -> elem_data <> [] ->
  exists st, ElementalAttribute.statistics set_iter elem_data = Ok st.
Proof.
  intros Hset Hne. unfold ElementalAttribute.statistics.
  destruct elem_data as [|x xs]; [congruence|]. cbn [py_min py_max bind].
  assert (Hlen : ~ inject_Z (py_len (x :: xs)) == 0).
  { unfold py_len, Qeq. cbn [List.length inject_Z Qnum Qden]. lia. }
  rewrite !py_div_nonzero by assumption. cbn [bind].
  unfold ElementalAttribute.mode.
  destruct (proj2 (Hset (x :: xs)) x (or_introl eq_refl)) as [y [Hy _]].
  destruct (set_iter (x :: xs)) as [|z zs]; [destruct Hy|].
  cbn [py_max_by bind]. now eexists.
Qed.

Lemma elemental_featurize_defined md set_iter self comp :
  set_order set_iter ->
  (forall attr, In attr (ElementalAttribute.attributes self) ->
                exists elem_data, get_data md comp attr = Ok elem_data /\ elem_data <> []) ->
  exists out, ElementalAttribute.featurize md set_iter self comp = Ok out.
Proof.
  intros Hset Hattr. rewrite elemental_blocks.
  induction (ElementalAttribute.attributes self) as [|attr attrs IH]; simpl.
  - now eexists.
  - destruct (Hattr attr (or_introl eq_refl)) as [elem_data [Hdata Hne]].
    destruct (statistics_defined Hset Hne) as [st Hst].
    unfold attribute_block at 1. rewrite Hdata. cbn [bind]. rewrite Hst. cbn [bind].
    destruct IH as [out IH]; [intros a Ha; apply Hattr; now right|].
    destruct (map_result (attribute_block md set_iter comp) attrs); [|discriminate].
    now eexists.
Qed.

(** * Further properties of the code *)

(** ** IonicAttribute: the three loops *)

(** X1. For amounts that are whole numbers, on which the dot product
    [np.dot(ox, values)] is computed without rounding, the search for a
    neutral compound succeeds exactly when one oxidation state can be
    chosen from each element's list so that the states weighted by the
    amounts sum to zero; in particular it fails as soon as one element has
    no oxidation state at all. *)
Theorem neutral_search_over_product :
  forall (ox_states : list (list Z)) (vals : list Q),
    Forall whole vals ->
    (IonicAttribute.neutral_search (product ox_states) vals = true
     <-> exists ox, Forall2 (fun states o => In o states) ox_states ox
                    /\ np_dot ox vals == 0)
    /\ (In [] ox_states ->
        IonicAttribute.neutral_search (product ox_states) vals = false).
Proof.
  intros ox_states vals _.
  assert (Hiff : IonicAttribute.neutral_search (product ox_states) vals = true
                 <-> exists ox, Forall2 (fun states o => In o states) ox_states ox
                                /\ np_dot ox vals == 0).
  { rewrite neutral_search_true. split; intros [ox [Hin H0]]; exists ox;
      (split; [now apply in_product | assumption]). }
  split; [exact Hiff|].
  intros Hempty. apply not_true_is_false. intros E.
  apply Hiff in E as [ox [HF _]]. clear Hiff.
  induction HF as [|states o ls os Ho _ IH]; [destruct Hempty|].
  destruct Hempty as [->|Hin]; [destruct Ho | now apply IH].
Qed.

Lemma neutral_search_over_product_witness :
  (IonicAttribute.neutral_search (product [[2; 3]; [-2]]%Z) [2; 3] = true
   <-> exists ox, Forall2 (fun states o => In o states) [[2; 3]; [-2]]%Z ox
                  /\ np_dot ox [2; 3] == 0)
  /\ (In [] [[2; 3]; [-2]]%Z ->
      IonicAttribute.neutral_search (product [[2; 3]; [-2]]%Z) [2; 3] = false).
Proof.
  apply (@neutral_search_over_product [[2; 3]; [-2]]%Z [2; 3]).
  repeat constructor; [exists 2%Z | exists 3%Z]; split; try lia; reflexivity.
Defined.

(** X2. For amounts that are whole numbers and series laid out in the
    order of the dictionary, the index [int(sum(values[:i]) - 1)] is that
    of the last atom of the [i]-th element, so the loop collects the
    oxidation states and the electronegativity of each element, in
    dictionary order, and raises no [IndexError]. *)
Theorem pick_collects_each_element :
  forall (oxf : string -> list Z) (Xp : string -> Q) (d : list (string * Q)),
    Forall whole (values d) ->
    for_each (IonicAttribute.pick (values d) (per_atom oxf d) (per_atom Xp d))
             (seq 1 (List.length (values d))) ([], [])
    = Ok (map (fun ea => oxf (fst ea)) d, map (fun ea => Xp (fst ea)) d).
Proof.
  intros oxf Xp d Hw.
  pose proof (pick_loop oxf Xp d [] ([], []) Hw) as H.
  cbn [app List.length fst snd] in H.
  replace (List.length (values d)) with (List.length d)
    by (unfold values; now rewrite length_map).
  exact H.
Qed.

Lemma pick_collects_each_element_witness :
  for_each (IonicAttribute.pick [2; 3]
              (per_atom Samples.oxidation_states (el_amt Samples.Fe2O3))
              (per_atom Samples.X (el_amt Samples.Fe2O3)))
           (seq 1 2) ([], [])
  = Ok ([[2; 3]%Z; [(-2)%Z]], [183 # 100; 344 # 100]).
Proof.
  apply (pick_collects_each_element Samples.oxidation_states Samples.X
           (el_amt Samples.Fe2O3)).
  repeat constructor; [exists 2%Z | exists 3%Z]; split; try lia; reflexivity.
Defined.

Lemma unordered_pairs_length {A} (l : list A) :
  (List.length (unordered_pairs l) * 2 = List.length l * (List.length l - 1))%nat.
Proof.
  induction l as [|x l IH]; [reflexivity|].
  cbn [unordered_pairs List.length]. rewrite length_app, length_map.
  rewrite Nat.sub_succ, Nat.sub_0_r. destruct l as [|y l]; [reflexivity|].
  cbn [List.length] in *. rewrite Nat.sub_succ, Nat.sub_0_r in IH. lia.
Qed.

(** X3. The loop over [itertools.combinations(range(n), 2)] visits every
    unordered pair of distinct elements exactly once, in dictionary order,
    and never raises: it leaves the pair characters in [ionic_char] and
    their fraction-weighted sum in [avg_ionic_char]; there are n(n-1)/2
    pairs. *)
Theorem pair_loop_visits_all_pairs :
  forall (fX fF : string * Q -> Q) (d : list (string * Q)),
    (exists avg,
        for_each (IonicAttribute.pair_step (map fX d) (map fF d))
                 (combinations2 (List.length d)) ([], 0%R)
        = Ok (map (fun ab => IonicAttribute.ionic_character (fX (fst ab)) (fX (snd ab)))
                  (unordered_pairs d),
              avg)
        /\ avg = Rsum (map (fun ab =>
                              (Q2R (fF (fst ab)) * Q2R (fF (snd ab))
                               * IonicAttribute.ionic_character (fX (fst ab))
                                                                (fX (snd ab)))%R)
                           (unordered_pairs d)))
    /\ (List.length (unordered_pairs d) * 2
        = List.length d * (List.length d - 1))%nat.
Proof.
  intros fX fF d. split; [|apply unordered_pairs_length].
  eexists. split.
  - rewrite (pair_loop fX fF d _ (unordered_pairs d) ([], 0%R) (positions_of_pairs d)).
    cbn [fst snd app]. reflexivity.
  - rewrite fold_left_Rsum. apply Rplus_0_l.
Qed.

(** ** IonicAttribute: the ionic character *)

Lemma ionic_character_exponent x y : - (1 # 4) * (x - y) ^ 2 <= 0.
Proof.
  simpl. destruct (Qlt_le_dec 0 (x - y)) as [Hpos|Hle]; Lqa.nra.
Qed.

Lemma ionic_character_facts :
  forall XA XB : Q,
    (0 <= IonicAttribute.ionic_character XA XB < 1)%R
    /\ IonicAttribute.ionic_character XA XB = IonicAttribute.ionic_character XB XA
    /\ (IonicAttribute.ionic_character XA XB = 0%R <-> XA == XB).
Proof.
  intros XA XB. split; [|split].
  - unfold IonicAttribute.ionic_character.
    pose proof (exp_pos (Q2R (- (1 # 4) * (XA - XB) ^ 2))) as Hpos.
    pose proof (Qle_Rle _ _ (ionic_character_exponent XA XB)) as Hle.
    rewrite RMicromega.Q2R_0 in Hle.
    destruct Hle as [Hlt|Heq].
    + apply exp_increasing in Hlt. rewrite exp_0 in Hlt. Lra.lra.
    + rewrite Heq, exp_0. Lra.lra.
  - unfold IonicAttribute.ionic_character. do 2 f_equal.
    apply Qeq_eqR. simpl. ring.
  - split.
    + intros H0. destruct (Qeq_dec XA XB) as [E|N]; [exact E|].
      pose proof (ionic_character_positive N). Lra.lra.
    + intros E. unfold IonicAttribute.ionic_character.
      assert (E0 : - (1 # 4) * (XA - XB) ^ 2 == 0) by (simpl; rewrite E; ring).
      rewrite (Qeq_eqR _ _ E0), RMicromega.Q2R_0, exp_0. ring.
Qed.

Lemma py_index_In {A} (l : list A) i a : py_index l i = Ok a -> In a l.
Proof.
  unfold py_index. destruct (_ <? 0)%Z; [discriminate|].
  destruct (nth_error l _) eqn:E; [|discriminate].
  intros H. inversion H; subst. eapply nth_error_In; eassumption.
Qed.

Lemma pair_loop_bounds elec el_frac pairs : forall acc acc',
  Forall (fun f => 0 <= f) el_frac ->
  for_each (IonicAttribute.pair_step elec el_frac) pairs acc = Ok acc' ->
  Forall (fun c => (0 <= c < 1)%R) (fst acc) -> (0 <= snd acc)%R ->
  Forall (fun c => (0 <= c < 1)%R) (fst acc') /\ (0 <= snd acc')%R.
Proof.
  intros acc acc' Hfrac. revert acc acc'.
  induction pairs as [|pair pairs IH]; intros acc acc' H Hchars Havg; simpl in H.
  - inversion H; subst. now split.
  - destruct (IonicAttribute.pair_step elec el_frac acc pair) as [acc1|] eqn:E;
      [|discriminate]. cbn [bind] in H.
    apply (IH _ _ H); unfold IonicAttribute.pair_step in E; bind_inv E;
      inversion E; subst; cbn [fst snd].
    + apply Forall_app. split; [assumption|]. constructor; [|constructor].
      apply ionic_character_facts.
    + rewrite Forall_forall in Hfrac.
      match goal with
      | EA : py_index el_frac (Z.of_nat (fst pair)) = Ok ?fA,
        EB : py_index el_frac (Z.of_nat (snd pair)) = Ok ?fB |- _ =>
          pose proof (Qle_Rle _ _ (Hfrac _ (py_index_In _ _ EA))) as HA;
          pose proof (Qle_Rle _ _ (Hfrac _ (py_index_In _ _ EB))) as HB
      end.
      rewrite RMicromega.Q2R_0 in HA, HB.
      match goal with
      | |- (0 <= _ + _ * _ * IonicAttribute.ionic_character ?a ?b)%R =>
          pose proof (proj1 (ionic_character_facts a b)) as [Hc _]
      end.
      apply Rplus_le_le_0_compat; [assumption|].
      apply Rmult_le_pos; [apply Rmult_le_pos|]; assumption.
Qed.

Lemma np_max_In l m : IonicAttribute.np_max l = Ok m -> In m l.
Proof.
  destruct l as [|x xs]; [discriminate|]. simpl. intros H. inversion H; subst. clear H.
  revert x. induction xs as [|y ys IH]; intros x; simpl; [now left|].
  destruct (IH (Rmax x y)) as [E|Hin]; [|now right; right].
  unfold Rmax in E at 1. destruct (Rle_dec x y); [right; left | left]; congruence.
Qed.

(** X4. The ionic character [1 - exp(-0.25 (XA - XB)^2)] of a pair lies in
    [0, 1), does not depend on the order of the two elements, and is 0
    exactly when the two electronegativities are equal. *)
Theorem ionic_character_range :
  forall XA XB : Q,
    (0 <= IonicAttribute.ionic_character XA XB < 1)%R
    /\ IonicAttribute.ionic_character XA XB = IonicAttribute.ionic_character XB XA
    /\ (IonicAttribute.ionic_character XA XB = 0%R <-> XA == XB).
Proof. exact ionic_character_facts. Qed.

Lemma fractions_nonnegative vals :
  Forall (fun a => 0 < a) vals ->
  Forall (fun f => 0 <= f) (map (fun v => v / py_sum vals) vals).
Proof.
  intros Hpos. destruct vals as [|v vs]; [constructor|].
  assert (Hsum : 0 < py_sum (v :: vs)) by (apply Qsum_positive; [discriminate | assumption]).
  apply Forall_map. eapply Forall_impl; [|exact Hpos].
  intros a Ha. cbv beta. apply Qlt_le_weak. unfold Qdiv.
  apply Qmult_lt_0_compat; [assumption | now apply Qinv_lt_0_compat].
Qed.

(** X5. Whatever the element tables hold, a vector returned by
    [IonicAttribute.featurize] for a composition with positive amounts is
    either [[True, 0, 0]] (fewer than two elements) or a boolean followed
    by a maximal ionic character in [0, 1) and a non-negative average
    ionic character. *)
Theorem ionic_features_bounded :
  forall (magpie_data : MagpieData) (self : IonicAttribute.t) (comp : Composition)
         (out : list value),
    Forall (fun a => 0 < a) (values (el_amt comp)) ->
    IonicAttribute.featurize magpie_data self comp = Ok out ->
    ((List.length (el_amt comp) < 2)%nat /\ out = [VBool true; VInt 0; VInt 0])
    \/ ((2 <= List.length (el_amt comp))%nat
        /\ exists cpd_possible max_ionic_char avg_ionic_char,
            out = [VBool cpd_possible; VFloat max_ionic_char; VFloat avg_ionic_char]
            /\ (0 <= max_ionic_char < 1)%R /\ (0 <= avg_ionic_char)%R).
Proof.
  intros md self comp out Hpos H. unfold IonicAttribute.featurize in H.
  cbv zeta in H. unfold keys in H. rewrite length_map in H.
  destruct (Nat.ltb_spec (List.length (el_amt comp)) 2) as [Hlt|Hge].
  - left. inversion H. now split.
  - right. split; [assumption|]. bind_inv H. inversion H; subst.
    match goal with
    | E : for_each (IonicAttribute.pair_step _ _) _ _ = Ok _ |- _ =>
        destruct (pair_loop_bounds _ _ _ (fractions_nonnegative Hpos) E) as [Hchars Havg];
          [constructor | cbn [snd]; Lra.lra |]
    end.
    do 3 eexists. split; [reflexivity|]. split; [|exact Havg].
    match goal with
    | E : IonicAttribute.np_max _ = Ok _ |- _ => apply np_max_In in E
    end.
    rewrite Forall_forall in Hchars. now apply Hchars.
Qed.

Lemma ionic_features_bounded_witness :
  ((List.length (el_amt Samples.Mg05F) < 2)%nat
   /\ [VBool false; VFloat 0; VFloat 0] = [VBool true; VInt 0; VInt 0])
  \/ ((2 <= List.length (el_amt Samples.Mg05F))%nat
      /\ exists cpd_possible max_ionic_char avg_ionic_char,
          [VBool false; VFloat 0; VFloat 0]
          = [VBool cpd_possible; VFloat max_ionic_char; VFloat avg_ionic_char]
          /\ (0 <= max_ionic_char < 1)%R /\ (0 <= avg_ionic_char)%R).
Proof.
  apply (@ionic_features_bounded Samples.magpie_data IonicAttribute.mk Samples.Mg05F).
  - repeat constructor.
  - exact Mg05F_features.
Defined.


(** ** Label/value alignment, entry by entry *)

Lemma pick_loop_length vals all_ox_states all_elec l : forall acc acc',
  for_each (IonicAttribute.pick vals all_ox_states all_elec) l acc = Ok acc' ->
  List.length (snd acc') = (List.length (snd acc) + List.length l)%nat.
Proof.
  induction l as [|i l IH]; intros acc acc' H; simpl in H.
  - inversion H. simpl. lia.
  - destruct (IonicAttribute.pick vals all_ox_states all_elec acc i) as [acc1|] eqn:E;
      cbn [bind] in H; [|discriminate].
    apply IH in H. rewrite H. unfold IonicAttribute.pick in E. bind_inv E.
    inversion E; subst. cbn [snd]. rewrite length_app. simpl. lia.
Qed.

Lemma map_fst_combine_same {A B} (l : list A) : forall l' : list B,
  List.length l = List.length l' -> map fst (combine l l') = l.
Proof.
  induction l as [|x l IH]; intros [|y l'] H; simpl in *; try discriminate;
    [reflexivity|]. f_equal. apply IH. lia.
Qed.

Lemma map_snd_combine_same {A B} (l : list A) : forall l' : list B,
  List.length l = List.length l' -> map snd (combine l l') = l'.
Proof.
  induction l as [|x l IH]; intros [|y l'] H; simpl in *; try discriminate;
    [reflexivity|]. f_equal. apply IH. lia.
Qed.

(** The pair loop on the picked electronegativities. *)
Lemma pair_loop_of_picks (total : Q) (elec vals : list Q) :
  List.length elec = List.length vals ->
  for_each (IonicAttribute.pair_step elec (map (fun v => v / total) vals))
           (combinations2 (List.length vals)) ([], 0%R)
  = Ok (map (fun ab => IonicAttribute.ionic_character (fst (fst ab)) (fst (snd ab)))
            (unordered_pairs (combine elec vals)),
        Rsum (map (fun ab =>
                     (Q2R (snd (fst ab) / total) * Q2R (snd (snd ab) / total)
                      * IonicAttribute.ionic_character (fst (fst ab)) (fst (snd ab)))%R)
                  (unordered_pairs (combine elec vals)))).
Proof.
  intros Hlen.
  pose proof (pair_loop fst (fun ea => snd ea / total) (combine elec vals) _
                        (unordered_pairs (combine elec vals)) ([], 0%R)
                        (positions_of_pairs (combine elec vals))) as P.
  rewrite (map_fst_combine_same elec vals Hlen) in P.
  assert (Hfrac : map (fun ea : Q * Q => snd ea / total) (combine elec vals)
                  = map (fun v => v / total) vals).
  { rewrite <- (map_snd_combine_same elec vals Hlen) at 2. now rewrite map_map. }
  rewrite Hfrac in P.
  assert (Hn : List.length (combine elec vals) = List.length vals)
    by (rewrite length_combine; lia).
  rewrite Hn in P. rewrite P.
  cbn [fst snd app]. rewrite fold_left_Rsum, Rplus_0_l. reflexivity.
Qed.

Lemma fold_left_Rmax_bound xs : forall x,
  (x <= fold_left Rmax xs x)%R
  /\ (forall c, In c xs -> (c <= fold_left Rmax xs x)%R).
Proof.
  induction xs as [|y xs IH]; intros x; simpl.
  - split; [apply Rle_refl | intros c []].
  - destruct (IH (Rmax x y)) as [Hx Hxs]. split.
    + eapply Rle_trans; [apply Rmax_l | exact Hx].
    + intros c [<-|Hc]; [|now apply Hxs].
      eapply Rle_trans; [apply Rmax_r | exact Hx].
Qed.

Lemma np_max_bound l m :
  IonicAttribute.np_max l = Ok m -> forall c, In c l -> (c <= m)%R.
Proof.
  destruct l as [|x xs]; [discriminate|]. simpl. intros H. inversion H; subst. clear H.
  destruct (fold_left_Rmax_bound xs x) as [Hx Hxs].
  intros c [<-|Hc]; [exact Hx | now apply Hxs].
Qed.

(** C4. Each of the four featurizers is aligned with its labels: a
    returned vector is as long as [generate_labels()], so its length is
    fixed by the configuration and is the same for all compositions.  The
    entries correspond in order: the [i]-th stoichiometric value and label
    both belong to the [i]-th exponent; the elemental values and labels are
    the blocks of six of the attributes, attribute by attribute, each block
    holding minimum, maximum, range, mean, mean absolute deviation and mode
    under the labels of these names; the valence fractions come in the
    order s, p, d, f of their labels; the ionic vector holds, in the order of
    its labels, the outcome of the search for a neutral compound, the
    greatest ionic character of the pairs of elements and the sum of these
    characters weighted by the two atomic fractions (or [True, 0, 0] below
    two elements). *)
Theorem label_value_alignment :
  forall (magpie_data : MagpieData) (set_iter : list Q -> list Q),
    (aligned stoichiometric_featurizer
     /\ aligned (elemental_featurizer magpie_data set_iter)
     /\ aligned (valence_orbital_featurizer magpie_data)
     /\ aligned (ionic_featurizer magpie_data))
    /\ (forall F (I : AbstractFeaturizer F), aligned I ->
        forall (self : F) c1 c2 out1 out2,
          featurize self c1 = Ok out1 -> featurize self c2 = Ok out2 ->
          List.length out1 = List.length out2)
    /\ (forall self comp out,
          StoichiometricAttribute.featurize self comp = Ok out ->
          Forall2 (fun p v => norm_entry comp p = Ok v)
                  (StoichiometricAttribute.p_list self) out
          /\ Forall2 (fun p label => label = (PyStr.format_d p ++ "-norm")%string)
                     (StoichiometricAttribute.p_list self)
                     (StoichiometricAttribute.generate_labels self))
    /\ (forall self comp out,
          ElementalAttribute.featurize magpie_data set_iter self comp = Ok out ->
          exists blocks,
            out = List.concat blocks
            /\ ElementalAttribute.generate_labels self
               = List.concat (map ElementalAttribute.labels_of
                                  (ElementalAttribute.attributes self))
            /\ Forall2 (fun attr block =>
                          attribute_block magpie_data set_iter comp attr = Ok block
                          /\ List.length block
                             = List.length (ElementalAttribute.labels_of attr))
                       (ElementalAttribute.attributes self) blocks)
    /\ (forall comp attr block,
          attribute_block magpie_data set_iter comp attr = Ok block ->
          exists elem_data mn mx mean dev md,
            get_data magpie_data comp attr = Ok elem_data
            /\ py_min elem_data = Ok mn /\ py_max elem_data = Ok mx
            /\ py_div (py_sum elem_data) (inject_Z (py_len elem_data)) = Ok mean
            /\ py_div (py_sum (map (fun x => Qabs (x - mean)) elem_data))
                       (inject_Z (py_len elem_data)) = Ok dev
            /\ ElementalAttribute.mode set_iter elem_data = Ok md
            /\ block = [VRat mn; VRat mx; VRat (mx - mn); VRat mean; VRat dev; VRat md]
            /\ ElementalAttribute.labels_of attr
               = ["Min " ++ attr; "Max " ++ attr; "Range " ++ attr;
                  "Mean " ++ attr; "AbsDev " ++ attr; "Mode " ++ attr]%string)
    /\ (forall self comp out,
          ValenceOrbitalAttribute.featurize magpie_data self comp = Ok out ->
          exists total s p d f,
            ValenceOrbitalAttribute.average magpie_data comp "NValance" = Ok total
            /\ ValenceOrbitalAttribute.average magpie_data comp "NsValence" = Ok s
            /\ ValenceOrbitalAttribute.average magpie_data comp "NpValence" = Ok p
            /\ ValenceOrbitalAttribute.average magpie_data comp "NdValence" = Ok d
            /\ ValenceOrbitalAttribute.average magpie_data comp "NfValence" = Ok f
            /\ out = [VRat (s / total); VRat (p / total);
                      VRat (d / total); VRat (f / total)]
            /\ ValenceOrbitalAttribute.generate_labels self
               = ["Frac s Valence Electrons"; "Frac p Valence Electrons";
                  "Frac d Valence Electrons"; "Frac f Valence Electrons"]%string)
    /\ (forall self comp out,
          IonicAttribute.featurize magpie_data self comp = Ok out ->
          IonicAttribute.generate_labels self
          = ["compound possible"; "Max Ionic Char"; "Avg Ionic Char"]%string
          /\ (((List.length (el_amt comp) < 2)%nat
               /\ out = [VBool true; VInt 0; VInt 0])
              \/ exists all_elec ox_states elec max_ionic_char,
                   let vals := values (el_amt comp) in
                   let pairs := unordered_pairs (combine elec vals) in
                   let ionic_char :=
                     map (fun ab => IonicAttribute.ionic_character (fst (fst ab))
                                                                   (fst (snd ab)))
                         pairs in
                   get_data magpie_data comp "Electronegativity" = Ok all_elec
                   /\ for_each (IonicAttribute.pick
                                  vals (get_data_oxidation_states magpie_data comp)
                                  all_elec)
                               (seq 1 (List.length vals)) ([], [])
                      = Ok (ox_states, elec)
                   /\ out = [VBool (IonicAttribute.neutral_search (product ox_states)
                                                                  vals);
                             VFloat max_ionic_char;
                             VFloat (Rsum (map (fun ab =>
                                                  (Q2R (snd (fst ab) / py_sum vals)
                                                   * Q2R (snd (snd ab) / py_sum vals)
                                                   * IonicAttribute.ionic_character
                                                       (fst (fst ab)) (fst (snd ab)))%R)
                                               pairs))]
                   /\ In max_ionic_char ionic_char
                   /\ (forall c, In c ionic_char -> (c <= max_ionic_char)%R))).
Proof.
  intros md set_iter.
  split; [|split; [|split; [|split; [|split; [|split]]]]].
  - split; [apply stoichiometric_aligned|].
    split; [apply elemental_aligned|].
    split; intros self c out H; simpl in *.
    + now apply valence_orbital_length in H.
    + now apply ionic_length in H.
  - intros F I HI self c1 c2 out1 out2 H1 H2.
    now rewrite (HI _ _ _ H1), (HI _ _ _ H2).
  - intros self comp out H. split.
    + rewrite StoichiometricFacts.featurize_entries in H.
      now apply map_result_Forall2.
    + unfold StoichiometricAttribute.generate_labels.
      induction (StoichiometricAttribute.p_list self); simpl; constructor; auto.
  - intros self comp out H.
    destruct (elemental_correspondence _ _ _ _ H) as [blocks [-> HF]].
    exists blocks. split; [reflexivity|]. split; [|assumption].
    unfold ElementalAttribute.generate_labels. apply flat_map_concat_map.
  - intros comp attr block H. unfold attribute_block in H.
    destruct (get_data md comp attr) as [elem_data|] eqn:Edata; [|discriminate].
    cbn [bind] in H.
    destruct (statistics_shape _ _ H) as [mn [mx [mean [dev [mo Hshape]]]]].
    exists elem_data, mn, mx, mean, dev, mo. intuition.
  - intros self comp out H.
    destruct (valence_orbital_shape _ _ _ H) as [t [s [p [d [f Hshape]]]]].
    exists t, s, p, d, f. intuition.
  - intros self comp out H. split; [reflexivity|].
    unfold IonicAttribute.featurize in H. cbv zeta in H.
    unfold keys in H. rewrite length_map in H.
    destruct (Nat.ltb_spec (List.length (el_amt comp)) 2) as [Hlt|Hge].
    + left. inversion H. now split.
    + right. bind_inv H. inversion H; subst. clear H.
      match goal with
      | Epick : for_each (IonicAttribute.pick _ _ ?all_elec) _ _ = Ok (?ox, ?elec),
        Epair : for_each (IonicAttribute.pair_step _ _) _ _ = Ok (?chars, ?avg),
        Emax : IonicAttribute.np_max _ = Ok ?mx |- _ =>
          exists all_elec, ox, elec, mx; cbv zeta;
          pose proof (@pick_loop_length _ _ _ _ _ _ Epick) as Hlen;
          cbn [snd List.length] in Hlen; rewrite length_seq in Hlen;
          replace (List.length (el_amt comp))
            with (List.length (values (el_amt comp))) in Epair
            by (unfold values; apply length_map);
          rewrite (@pair_loop_of_picks (py_sum (values (el_amt comp))) elec
                     (values (el_amt comp)) Hlen) in Epair;
          injection Epair as <- <-;
          split; [reflexivity|]; split; [exact Epick|]; split; [reflexivity|];
          split; [exact (@np_max_In _ _ Emax) | exact (@np_max_bound _ _ Emax)]
      end.
Qed.

Lemma label_value_alignment_witness :
  List.length [VInt 2; VInt 2]
  = List.length (StoichiometricAttribute.generate_labels
                   (StoichiometricAttribute.mk [0; 0]%Z))
  /\ List.length [VBool true; VInt 0; VInt 0]
     = List.length (IonicAttribute.generate_labels IonicAttribute.mk).
Proof.
  destruct (label_value_alignment Samples.magpie_data first_occurrences)
    as [[Hs [_ [_ Hi]]] _].
  split.
  - apply (Hs (StoichiometricAttribute.mk [0; 0]%Z) Samples.NaCl). reflexivity.
  - apply (Hi IonicAttribute.mk
              (mkComposition [("Fe"%string, None)] [("Fe"%string, 1)] 1)).
    reflexivity.
Defined.

(** ** StoichiometricAttribute *)

(** X7. On a composition with positive amounts
    [StoichiometricAttribute.featurize] returns a vector exactly when no
    exponent of [p_list] is negative, and the vector then has one entry per
    exponent. *)
Theorem stoichiometric_returns_iff_no_negative_exponent :
  forall (self : StoichiometricAttribute.t) (comp : Composition),
    valid_composition comp ->
    ((exists out, StoichiometricAttribute.featurize self comp = Ok out)
     <-> Forall (fun p => (0 <= p)%Z) (StoichiometricAttribute.p_list self))
    /\ (forall out, StoichiometricAttribute.featurize self comp = Ok out ->
                    List.length out = List.length (StoichiometricAttribute.p_list self)).
Proof.
  intros self comp Hv. split; [split|].
  - intros [out Hout]. apply Forall_forall. intros p Hin.
    destruct (Z.le_gt_cases 0 p) as [Hp|Hp]; [assumption|].
    rewrite StoichiometricFacts.featurize_entries in Hout.
    rewrite negative_entry_raises in Hout; [discriminate | assumption |].
    exists p. split; [assumption | lia].
  - now apply stoichiometric_featurize_defined.
  - intros out Hout. rewrite StoichiometricFacts.featurize_entries in Hout.
    now apply map_result_length in Hout.
Qed.

Lemma stoichiometric_returns_iff_no_negative_exponent_witness :
  (exists out, StoichiometricAttribute.featurize
                 (StoichiometricAttribute.mk [0; 0]%Z) Samples.Fe2O3 = Ok out)
  <-> Forall (fun p => (0 <= p)%Z) [0; 0]%Z.
Proof.
  apply (stoichiometric_returns_iff_no_negative_exponent
           (StoichiometricAttribute.mk [0; 0]%Z) valid_Fe2O3).
Defined.

Lemma Qsum_from l : forall acc, fold_left Qplus l acc == acc + Qsum l.
Proof.
  unfold Qsum. induction l as [|x l IH]; intros acc; simpl; [ring|].
  rewrite (IH (acc + x)), (IH (0 + x)). ring.
Qed.

Lemma Qsum_cons x l : Qsum (x :: l) == x + Qsum l.
Proof. unfold Qsum at 1. simpl. rewrite Qsum_from. ring. Qed.

Lemma norm_sum_value el n p :
  ~ n == 0 ->
  StoichiometricAttribute.norm_sum el n p
  = Ok (fold_left (fun acc ja => acc + (snd ja / n) ^ p) el 0).
Proof.
  intros Hn. unfold StoichiometricAttribute.norm_sum.
  assert (H : forall acc,
             for_each (fun acc ja => f <- py_div (snd ja) n ;; Ok (acc + f ^ p)) el acc
             = Ok (fold_left (fun acc ja => acc + (snd ja / n) ^ p) el acc)).
  { induction el as [|ja el IH]; intros acc; simpl; [reflexivity|].
    rewrite py_div_nonzero by assumption. simpl. apply IH. }
  apply H.
Qed.

Lemma Rpower_base_1 y : Rpower 1 y = 1%R.
Proof. unfold Rpower. now rewrite ln_1, Rmult_0_r, exp_0. Qed.

(** X9. For a composition of a single element every entry of
    [StoichiometricAttribute.featurize] is 1: the integer 1 for the
    exponent 0 and the float 1.0 for a positive exponent. *)
Theorem single_element_norms_are_one :
  forall (self : StoichiometricAttribute.t) (comp : Composition)
         (sym : string) (a : Q) (out : list value),
    el_amt comp = [(sym, a)] -> 0 < a ->
    StoichiometricAttribute.featurize self comp = Ok out ->
    Forall2 (fun p v => v = if (p =? 0)%Z then VInt 1 else VFloat 1)
            (StoichiometricAttribute.p_list self) out.
Proof.
  intros self comp sym a out Hel Ha Hout.
  rewrite StoichiometricFacts.featurize_entries in Hout.
  apply map_result_Forall2 in Hout. revert Hout. apply Forall2_impl.
  intros p v. unfold norm_entry. rewrite Hel.
  destruct (p <? 0)%Z eqn:Eneg; [discriminate|].
  destruct (Z.eqb_spec p 0) as [->|Hp0].
  - intros H. now inversion H.
  - assert (Hn : ~ py_sum (values [(sym, a)]) == 0)
      by (unfold py_sum, Qsum; simpl; Lqa.lra).
    rewrite (norm_sum_value _ _ Hn). cbn [bind fold_left snd].
    intros H. inversion H. f_equal.
    assert (E : 0 + (a / py_sum (values [(sym, a)])) ^ p == 1).
    { assert (E1 : a / py_sum (values [(sym, a)]) == 1)
        by (unfold py_sum, Qsum; simpl; field; Lqa.lra).
      rewrite E1, Qpower_1. reflexivity. }
    unfold StoichiometricAttribute.root.
    change (values [(sym, a)]) with [a] in E.
    assert (E0 : Qeq_bool (0 + (a / py_sum [a]) ^ p) 0 = false).
    { destruct (Qeq_bool _ 0) eqn:Eb; [|reflexivity].
      apply Qeq_bool_iff in Eb. rewrite E in Eb. discriminate. }
    rewrite E0, (Qeq_eqR _ _ E), RMicromega.Q2R_1. apply Rpower_base_1.
Qed.

Lemma single_element_norms_are_one_witness :
  Forall2 (fun p v => v = if (p =? 0)%Z then VInt 1 else VFloat 1)
          [0%Z; 0%Z] [VInt 1; VInt 1].
Proof.
  apply (@single_element_norms_are_one
           (StoichiometricAttribute.mk [0; 0]%Z)
           (mkComposition [("Fe"%string, None)] [("Fe"%string, 4)] 4) "Fe"%string 4).
  - reflexivity.
  - reflexivity.
  - reflexivity.
Defined.

(** ** Labels *)

Lemma string_length_append (s t : string) :
  String.length (s ++ t) = (String.length s + String.length t)%nat.
Proof. induction s as [|c s IH]; simpl; [reflexivity | now rewrite IH]. Qed.

Lemma string_append_cancel_r (s1 s2 t : string) :
  (s1 ++ t = s2 ++ t)%string -> s1 = s2.
Proof.
  revert s2. induction s1 as [|c s1 IH]; intros [|d s2] H; simpl in H.
  - reflexivity.
  - apply (f_equal String.length) in H. simpl in H.
    rewrite string_length_append in H. lia.
  - apply (f_equal String.length) in H. simpl in H.
    rewrite string_length_append in H. lia.
  - inversion H. f_equal. now apply IH.
Qed.

Lemma format_d_injective z1 z2 : PyStr.format_d z1 = PyStr.format_d z2 -> z1 = z2.
Proof.
  unfold PyStr.format_d. intros H. apply DecimalZ.to_int_inj.
  assert (Hz : forall z, NilZero.int_of_string (NilZero.string_of_int (Z.to_int z))
                         = Some (Z.to_int z)).
  { intros z. apply NilZero.isi; destruct z; simpl; try discriminate;
      intros E; inversion E as [E']; now apply DecimalPos.Unsigned.to_uint_nonnil in E'. }
  pose proof (Hz z1) as H1. rewrite H, Hz in H1. now inversion H1.
Qed.

Lemma labels_of_injective attr1 attr2 label :
  In label (ElementalAttribute.labels_of attr1) ->
  In label (ElementalAttribute.labels_of attr2) -> attr1 = attr2.
Proof.
  unfold ElementalAttribute.labels_of. simpl.
  intros H1 H2.
  repeat match goal with
         | H : _ \/ _ |- _ => destruct H as [H|H]
         | H : False |- _ => destruct H
         end;
    subst label; inversion H2; reflexivity.
Qed.

Lemma labels_of_NoDup attr : NoDup (ElementalAttribute.labels_of attr).
Proof.
  unfold ElementalAttribute.labels_of.
  repeat constructor; simpl; intros H;
    repeat match goal with
           | H : _ \/ _ |- _ => destruct H as [H|H]
           | H : False |- _ => destruct H
           end;
    inversion H.
Qed.

(** X10. The labels name the entries unambiguously: distinct exponents
    give distinct stoichiometric labels, and distinct attributes give
    distinct elemental labels, six per attribute. *)
Theorem labels_are_distinct :
  (forall self : StoichiometricAttribute.t,
      NoDup (StoichiometricAttribute.p_list self) ->
      NoDup (StoichiometricAttribute.generate_labels self))
  /\ (forall self : ElementalAttribute.t,
        NoDup (ElementalAttribute.attributes self) ->
        NoDup (ElementalAttribute.generate_labels self)
        /\ List.length (ElementalAttribute.generate_labels self)
           = (6 * List.length (ElementalAttribute.attributes self))%nat).
Proof.
  split.
  - intros self Hnd. unfold StoichiometricAttribute.generate_labels.
    apply NoDup_map_NoDup_ForallPairs; [|assumption].
    intros p q _ _ H. apply string_append_cancel_r in H.
    now apply format_d_injective.
  - intros self Hnd. unfold ElementalAttribute.generate_labels. split.
    + induction Hnd as [|attr attrs Hnotin Hnd IH]; cbn [flat_map]; [constructor|].
      apply NoDup_app; [apply labels_of_NoDup | assumption |].
      intros label H1 H2. apply in_flat_map in H2 as [attr2 [Hin2 H2]].
      rewrite (labels_of_injective H1 H2) in Hnotin. contradiction.
    + clear Hnd. induction (ElementalAttribute.attributes self) as [|attr attrs IH];
        [reflexivity|]. cbn [flat_map]. rewrite length_app, IH. simpl. lia.
Qed.

Lemma labels_are_distinct_witness :
  NoDup (StoichiometricAttribute.generate_labels (StoichiometricAttribute.init None))
  /\ NoDup (ElementalAttribute.generate_labels (ElementalAttribute.init None)).
Proof.
  destruct labels_are_distinct as [Hs He]. split.
  - apply Hs. repeat constructor; simpl; intuition discriminate.
  - apply He.
    repeat (constructor; [simpl; intuition discriminate|]). constructor.
Defined.

(** ** ElementalAttribute: the statistics *)

Lemma Qle_bool_false x y : Qle_bool x y = false -> y <= x.
Proof.
  intros H. apply Qlt_le_weak, Qnot_le_lt. intros Hle.
  apply Qle_bool_iff in Hle. congruence.
Qed.

Lemma min_from_spec xs : forall best,
  In (min_from best xs) (best :: xs)
  /\ forall x, In x (best :: xs) -> min_from best xs <= x.
Proof.
  induction xs as [|y xs IH]; intros best; simpl.
  - split; [now left|]. intros x [<-|[]]. apply Qle_refl.
  - destruct (IH (if Qle_bool best y then best else y)) as [Hin Hle].
    split.
    + destruct Hin as [E|Hin]; [|now right; right].
      rewrite <- E. destruct (Qle_bool best y); [now left | now right; left].
    + intros x Hx.
      assert (Hb : min_from (if Qle_bool best y then best else y) xs
                   <= (if Qle_bool best y then best else y))
        by (apply Hle; now left).
      destruct Hx as [<-|[<-|Hx]]; [| |apply Hle; now right].
      * destruct (Qle_bool best y) eqn:E; [assumption|].
        apply Qle_bool_false in E. Lqa.lra.
      * destruct (Qle_bool best y) eqn:E; [|assumption].
        apply Qle_bool_iff in E. Lqa.lra.
Qed.

Lemma max_from_spec xs : forall best,
  In (max_from best xs) (best :: xs)
  /\ forall x, In x (best :: xs) -> x <= max_from best xs.
Proof.
  induction xs as [|y xs IH]; intros best; simpl.
  - split; [now left|]. intros x [<-|[]]. apply Qle_refl.
  - destruct (IH (if Qle_bool y best then best else y)) as [Hin Hle].
    split.
    + destruct Hin as [E|Hin]; [|now right; right].
      rewrite <- E. destruct (Qle_bool y best); [now left | now right; left].
    + intros x Hx.
      assert (Hb : (if Qle_bool y best then best else y)
                   <= max_from (if Qle_bool y best then best else y) xs)
        by (apply Hle; now left).
      destruct Hx as [<-|[<-|Hx]]; [| |apply Hle; now right].
      * destruct (Qle_bool y best) eqn:E; [assumption|].
        apply Qle_bool_false in E. Lqa.lra.
      * destruct (Qle_bool y best) eqn:E; [|assumption].
        apply Qle_bool_iff in E. Lqa.lra.
Qed.

Lemma Qsum_nonnegative l : (forall d, In d l -> 0 <= d) -> 0 <= Qsum l.
Proof.
  induction l as [|x l IH] using rev_ind; intros H.
  - unfold Qsum. simpl. apply Qle_refl.
  - rewrite Qsum_snoc.
    assert (Hl : 0 <= Qsum l) by (apply IH; intros d Hd; apply H, in_or_app; now left).
    assert (Hx : 0 <= x) by (apply H, in_or_app; right; now left).
    Lqa.lra.
Qed.

(** X11. In the statistics [ElementalAttribute.featurize] appends for one
    property series, the minimum and the maximum are values of the series
    and bound every value of it, so the range is not negative, and the mean
    absolute deviation is not negative either; an empty series yields no
    statistics. *)
Theorem extremes_bound_the_series :
  forall (set_iter : list Q -> list Q) (elem_data : list Q) (st : list value),
    ElementalAttribute.statistics set_iter elem_data = Ok st ->
    elem_data <> []
    /\ exists mn mx mean dev md,
         st = [VRat mn; VRat mx; VRat (mx - mn); VRat mean; VRat dev; VRat md]
         /\ In mn elem_data /\ In mx elem_data
         /\ (forall x, In x elem_data -> mn <= x /\ x <= mx)
         /\ 0 <= mx - mn
         /\ 0 <= dev.
Proof.
  intros set_iter elem_data st H. destruct (statistics_shape _ _ H)
    as [mn [mx [mean [dev [md [Hmn [Hmx [Hmean [Hdev [_ ->]]]]]]]]]].
  destruct elem_data as [|x0 xs]; [discriminate|].
  split; [discriminate|].
  exists mn, mx, mean, dev, md. split; [reflexivity|].
  simpl in Hmn, Hmx. inversion Hmn; inversion Hmx; subst mn mx. clear Hmn Hmx.
  destruct (min_from_spec xs x0) as [Hmin_in Hmin_le].
  destruct (max_from_spec xs x0) as [Hmax_in Hmax_le].
  set (mn := min_from x0 xs) in *. set (mx := max_from x0 xs) in *.
  assert (Hbetween : forall x, In x (x0 :: xs) -> mn <= x /\ x <= mx) by (split; auto).
  assert (Hlen : 0 < inject_Z (py_len (x0 :: xs))).
  { unfold py_len. cbn [List.length]. change 0 with (inject_Z 0).
    rewrite <- Zlt_Qlt. lia. }
  apply py_div_Ok in Hdev as [-> _].
  assert (Hsum : 0 <= py_sum (map (fun x => Qabs (x - mean)) (x0 :: xs))).
  { unfold py_sum. apply Qsum_nonnegative. intros d Hd.
    apply in_map_iff in Hd as [x [<- Hx]]. apply Qabs_nonneg. }
  split; [exact Hmin_in|]. split; [exact Hmax_in|]. split; [exact Hbetween|].
  split.
  - destruct (Hbetween x0 (or_introl eq_refl)) as [H1 H2]. Lqa.lra.
  - apply Qle_shift_div_l; [assumption|]. Lqa.lra.
Qed.

Lemma extremes_bound_the_series_witness :
  [1; 2; 2; 1; 3] <> []
  /\ exists mn mx mean dev md,
       [VRat 1; VRat 3; VRat (3 - 1); VRat (9 / 5);
        VRat (py_sum (map (fun x => Qabs (x - 9 / 5)) [1; 2; 2; 1; 3]) / 5); VRat 1]
       = [VRat mn; VRat mx; VRat (mx - mn); VRat mean; VRat dev; VRat md]
       /\ In mn [1; 2; 2; 1; 3] /\ In mx [1; 2; 2; 1; 3]
       /\ (forall x, In x [1; 2; 2; 1; 3] -> mn <= x /\ x <= mx)
       /\ 0 <= mx - mn
       /\ 0 <= dev.
Proof.
  apply (@extremes_bound_the_series first_occurrences [1; 2; 2; 1; 3]).
  reflexivity.
Defined.

(** ** ValenceOrbitalAttribute *)

(** X12. When each of the s, p, d and f valence series sums to a value
    between 0 and the sum of the total valence series, every fraction
    returned by [ValenceOrbitalAttribute.featurize] lies in [0, 1]. *)
Theorem valence_fractions_in_unit_interval :
  forall (magpie_data : MagpieData) (self : ValenceOrbitalAttribute.t)
         (comp : Composition) (total s p d f : list Q) (out : list value),
    get_data magpie_data comp "NValance" = Ok total ->
    get_data magpie_data comp "NsValence" = Ok s ->
    get_data magpie_data comp "NpValence" = Ok p ->
    get_data magpie_data comp "NdValence" = Ok d ->
    get_data magpie_data comp "NfValence" = Ok f ->
    0 <= py_sum s /\ py_sum s <= py_sum total ->
    0 <= py_sum p /\ py_sum p <= py_sum total ->
    0 <= py_sum d /\ py_sum d <= py_sum total ->
    0 <= py_sum f /\ py_sum f <= py_sum total ->
    0 < num_atoms comp ->
    ValenceOrbitalAttribute.featurize magpie_data self comp = Ok out ->
    exists Fs Fp Fd Ff,
      out = [VRat Fs; VRat Fp; VRat Fd; VRat Ff]
      /\ (0 <= Fs /\ Fs <= 1) /\ (0 <= Fp /\ Fp <= 1)
      /\ (0 <= Fd /\ Fd <= 1) /\ (0 <= Ff /\ Ff <= 1).
Proof.
  intros md self comp total s p d f out Ht Hs Hp Hd Hf Hs0 Hp0 Hd0 Hf0 Hn0 H.
  unfold ValenceOrbitalAttribute.featurize, ValenceOrbitalAttribute.average in H.
  rewrite Ht, Hs, Hp, Hd, Hf in H. cbn [bind] in H. bind_inv H. inversion H; subst out.
  repeat match goal with
         | E : py_div _ _ = Ok _ |- _ =>
             let Hnz := fresh "Hnz" in apply py_div_Ok in E as [-> Hnz]
         end.
  do 4 eexists. split; [reflexivity|].
  set (n := num_atoms comp) in *.
  assert (Hn : ~ n == 0) by assumption.
  assert (Ht0 : ~ py_sum total == 0).
  { intros E. match goal with Hz : ~ py_sum total / n == 0 |- _ => apply Hz end.
    rewrite E. unfold Qdiv. ring. }
  assert (Htpos : 0 < py_sum total).
  { destruct (Qlt_le_dec 0 (py_sum total)) as [|Hle]; [assumption|].
    exfalso. apply Ht0. Lqa.lra. }
  assert (Hfrac : forall x, 0 <= x /\ x <= py_sum total ->
                            0 <= x / n / (py_sum total / n)
                            /\ x / n / (py_sum total / n) <= 1).
  { intros x [Hx0 Hx1].
    assert (E : x / n / (py_sum total / n) == x / py_sum total)
      by (field; split; assumption).
    rewrite E. split.
    - apply Qle_shift_div_l; [assumption|]. Lqa.lra.
    - apply Qle_shift_div_r; [assumption|]. Lqa.lra. }
  repeat split; now apply Hfrac.
Qed.

Lemma valence_fractions_in_unit_interval_witness :
  exists Fs Fp Fd Ff,
    [VRat ((10 / 5) / (34 / 5)); VRat ((12 / 5) / (34 / 5));
     VRat ((12 / 5) / (34 / 5)); VRat ((0 / 5) / (34 / 5))]
    = [VRat Fs; VRat Fp; VRat Fd; VRat Ff]
    /\ (0 <= Fs /\ Fs <= 1) /\ (0 <= Fp /\ Fp <= 1)
    /\ (0 <= Fd /\ Fd <= 1) /\ (0 <= Ff /\ Ff <= 1).
Proof.
  apply (@valence_fractions_in_unit_interval
           Samples.magpie_data ValenceOrbitalAttribute.mk Samples.Fe2O3
           [8; 8; 6; 6; 6] [2; 2; 2; 2; 2] [0; 0; 4; 4; 4]
           [6; 6; 0; 0; 0] [0; 0; 0; 0; 0]);
    try reflexivity; split; intros H; vm_compute in H; discriminate H.
Defined.

(** ** get_pymatgen_descriptor: order, length and errors *)

Section SortedUnique.
Context {A : Type} (key : A -> Q).


End SortedUnique.




Section DescriptorOrder.
Local Open Scope string_scope.
Variable Composition_of_formula : string -> result Composition.
Variable Element : string -> result string.
Variable X : string -> Q.
Variable getattr : string -> string -> option attribute.


Lemma sorted_by_head {A} (key : A -> Q) (l : list A) :
  l <> [] -> exists a rest, sorted_by key l = a :: rest /\ In a l.
Proof.
  intros Hne. destruct (sorted_by key l) as [|a rest] eqn:E.
  - exfalso. apply Hne.
    pose proof (sorted_by_permutation key l) as P. rewrite E in P.
    now apply Permutation_nil in P.
  - exists a, rest. split; [reflexivity|].
    eapply Permutation_in; [apply (sorted_by_permutation key)|]. rewrite E. now left.
Qed.

Lemma descriptor_first_failure composition property_name d oxi e :
  resolve Composition_of_formula Element composition = Ok (d, oxi) ->
  d <> [] ->
  (forall sym, In sym (keys d) ->
               property_value_of getattr oxi property_name sym = Raise e) ->
  get_pymatgen_descriptor Composition_of_formula Element X getattr
    composition property_name = Raise e.
Proof.
  intros Hres Hne Hfail. unfold get_pymatgen_descriptor. rewrite Hres. cbn [bind].
  destruct (@sorted_by_head _ X (keys d)) as [a [rest [E Hin]]].
  { destruct d; [congruence | discriminate]. }
  rewrite E. cbn [for_each]. now rewrite (Hfail a Hin).
Qed.

Lemma resolve_plain_composition c sym rest :
  elements c = (sym, None) :: rest ->
  resolve Composition_of_formula Element (AsComposition c) = Ok (el_amt c, []).
Proof.
  intros E. unfold resolve, species_oxidation_states. now rewrite E.
Qed.

Lemma resolve_plain_formula formula c :
  PyStr.contains "+" formula = false -> PyStr.contains "-" formula = false ->
  Composition_of_formula formula = Ok c ->
  resolve Composition_of_formula Element (AsString formula) = Ok (el_amt c, []).
Proof.
  intros Hp Hm Hc. unfold resolve.
  rewrite plain_formula_parsed_directly by assumption. now rewrite Hc.
Qed.
End DescriptorOrder.



(** X14. For whole amounts the series of [get_pymatgen_descriptor] has one
    entry per atom: its length is the sum of the amounts, and the value of
    every element of the composition occurs in it. *)
Theorem whole_amounts_give_one_entry_per_atom :
  forall (Composition_of_formula : string -> result Composition)
         (Element : string -> result string) (X : string -> Q)
         (getattr : string -> string -> option attribute)
         (composition : composition_arg) (property_name : string)
         (d : list (string * Q)) (oxi : list (string * Z))
         (value_of : string -> option Q),
    resolve Composition_of_formula Element composition = Ok (d, oxi) ->
    NoDup (keys d) ->
    (forall sym, In sym (keys d) ->
                 property_value_of getattr oxi property_name sym = Ok (value_of sym)) ->
    Forall whole (values d) ->
    exists series,
      get_pymatgen_descriptor Composition_of_formula Element X getattr
        composition property_name = Ok series
      /\ inject_Z (Z.of_nat (List.length series)) == Qsum (values d)
      /\ (forall sym, In sym (keys d) -> In (value_of sym) series).
Proof.
  intros Cof El X getattr composition property_name d oxi value_of Hres Hnd Hval Hwhole.
  exists (per_atom value_of (sorted_by (fun ea => X (fst ea)) d)).
  split; [now apply descriptor_series with (oxi := oxi)|]. split.
  - rewrite per_atom_length.
    rewrite (list_sum_permutation
               (Permutation_map (fun ea => Z.to_nat (py_int (snd ea)))
                                (sorted_by_permutation (fun ea => X (fst ea)) d))).
    rewrite (Qsum_whole Hwhole). unfold values. now rewrite map_map.
  - intros sym Hin. apply in_map_iff in Hin as [[sym' a] [E Hin]]. simpl in E. subst sym'.
    unfold per_atom. apply in_flat_map. exists (sym, a). split.
    + eapply Permutation_in;
        [apply Permutation_sym, (sorted_by_permutation (fun ea => X (fst ea))) | exact Hin].
    + simpl. rewrite Forall_forall in Hwhole.
      destruct (@whole_atoms a) as [_ Hone].
      { apply Hwhole. unfold values. change a with (snd (sym, a)). now apply in_map. }
      destruct (Z.to_nat (py_int a)); [lia | now left].
Qed.

Lemma whole_amounts_give_one_entry_per_atom_witness :
  exists series,
    get_pymatgen_descriptor Samples.Composition_of_formula Samples.Element
      Samples.X Samples.getattr (AsComposition Samples.Fe2O3) "atomic_mass"
    = Ok series
    /\ inject_Z (Z.of_nat (List.length series)) == Qsum [2; 3]
    /\ (forall sym, In sym ["Fe"%string; "O"%string] ->
                    In (Some (if String.eqb sym "Fe" then 55845 # 1000
                              else 15999 # 1000)) series).
Proof.
  apply (whole_amounts_give_one_entry_per_atom
           Samples.Composition_of_formula Samples.Element Samples.X Samples.getattr
           (AsComposition Samples.Fe2O3) "atomic_mass"%string
           (d := el_amt Samples.Fe2O3) (oxi := [])
           (fun sym => Some (if String.eqb sym "Fe" then 55845 # 1000
                             else 15999 # 1000))).
  - reflexivity.
  - repeat constructor; simpl; intuition discriminate.
  - intros sym [<-|[<-|[]]]; reflexivity.
  - repeat constructor; [exists 2%Z | exists 3%Z]; split; try lia; reflexivity.
Defined.

(** X15. The exceptions of [get_pymatgen_descriptor] on a composition with
    at least one element: a property no element has raises [AttributeError];
    [ionic_radii] without oxidation states raises the [ValueError] of the
    guard; a property given as a plain number and not listed as unitless
    raises [AttributeError] at [p.unit]; and a [Composition] object without
    elements raises [IndexError] at [composition.elements[0]]. *)
Theorem descriptor_exceptions :
  forall (Composition_of_formula : string -> result Composition)
         (Element : string -> result string) (X : string -> Q)
         (getattr : string -> string -> option attribute),
    (forall composition property_name d oxi,
        resolve Composition_of_formula Element composition = Ok (d, oxi) ->
        d <> [] ->
        (forall sym, In sym (keys d) -> getattr sym property_name = None) ->
        get_pymatgen_descriptor Composition_of_formula Element X getattr
          composition property_name = Raise AttributeError)
    /\ (forall composition d,
          resolve Composition_of_formula Element composition = Ok (d, []) ->
          d <> [] ->
          (forall sym, In sym (keys d) ->
                       exists p, getattr sym "ionic_radii"%string = Some p /\ p <> ANone) ->
          get_pymatgen_descriptor Composition_of_formula Element X getattr
            composition "ionic_radii"
          = Raise (ValueError "oxidation state not given for ionic_radii; It does not yield a unique number per Element"))
    /\ (forall composition property_name d oxi,
          resolve Composition_of_formula Element composition = Ok (d, oxi) ->
          d <> [] ->
          mem property_name unitless = false ->
          (forall sym, In sym (keys d) ->
                       exists v, getattr sym property_name = Some (ANumber v)) ->
          get_pymatgen_descriptor Composition_of_formula Element X getattr
            composition property_name = Raise AttributeError)
    /\ (forall c property_name,
          elements c = [] ->
          get_pymatgen_descriptor Composition_of_formula Element X getattr
            (AsComposition c) property_name = Raise IndexError).
Proof.
  intros Cof El X getattr. split; [|split; [|split]].
  - intros composition property_name d oxi Hres Hne Hmiss.
    apply descriptor_first_failure with (d := d) (oxi := oxi); [assumption..|].
    intros sym Hin. unfold property_value_of. now rewrite (Hmiss sym Hin).
  - intros composition d Hres Hne Hattr.
    apply descriptor_first_failure with (d := d) (oxi := []); [assumption..|].
    intros sym Hin. destruct (Hattr sym Hin) as [p [Hp Hnone]].
    unfold property_value_of. rewrite Hp.
    destruct p; [congruence | reflexivity..].
  - intros composition property_name d oxi Hres Hne Hunit Hattr.
    apply descriptor_first_failure with (d := d) (oxi := oxi); [assumption..|].
    intros sym Hin. destruct (Hattr sym Hin) as [v Hv].
    unfold property_value_of. rewrite Hv.
    assert (Hir : mem property_name ["ionic_radii"%string] = false).
    { unfold mem, unitless in *. cbn [existsb] in *.
      repeat (apply orb_false_iff in Hunit as [? Hunit]).
      apply orb_false_iff. split; assumption. }
    rewrite Hir, Hunit. reflexivity.
  - intros c property_name Hc. unfold get_pymatgen_descriptor, resolve,
      species_oxidation_states. now rewrite Hc.
Qed.

Lemma descriptor_exceptions_witness :
  get_pymatgen_descriptor Samples.Composition_of_formula Samples.Element
    Samples.X Samples.getattr (AsComposition Samples.Fe2O3) "colour"
  = Raise AttributeError
  /\ get_pymatgen_descriptor Samples.Composition_of_formula Samples.Element
       Samples.X Samples.getattr (AsString "Fe2O3") "ionic_radii"
     = Raise (ValueError "oxidation state not given for ionic_radii; It does not yield a unique number per Element")
  /\ get_pymatgen_descriptor Samples.Composition_of_formula Samples.Element
       Samples.X (fun _ _ => Some (ANumber 1)) (AsComposition Samples.NaCl) "is_metal"
     = Raise AttributeError
  /\ get_pymatgen_descriptor Samples.Composition_of_formula Samples.Element
       Samples.X Samples.getattr (AsComposition (mkComposition [] [] 0)) "X"
     = Raise IndexError.
Proof.
  split; [|split; [|split]].
  - apply (proj1 (descriptor_exceptions Samples.Composition_of_formula Samples.Element
                    Samples.X Samples.getattr))
      with (d := el_amt Samples.Fe2O3) (oxi := []).
    + reflexivity.
    + discriminate.
    + intros sym [<-|[<-|[]]]; reflexivity.
  - apply (proj1 (proj2 (descriptor_exceptions Samples.Composition_of_formula
                           Samples.Element Samples.X Samples.getattr)))
      with (d := el_amt Samples.Fe2O3).
    + reflexivity.
    + discriminate.
    + intros sym [<-|[<-|[]]]; eexists; (split; [reflexivity | discriminate]).
  - apply (proj1 (proj2 (proj2 (descriptor_exceptions Samples.Composition_of_formula
                                  Samples.Element Samples.X
                                  (fun _ _ => Some (ANumber 1))))))
      with (d := el_amt Samples.NaCl) (oxi := []).
    + reflexivity.
    + discriminate.
    + reflexivity.
    + intros sym _. now exists 1.
  - apply (proj2 (proj2 (proj2 (descriptor_exceptions Samples.Composition_of_formula
                                  Samples.Element Samples.X Samples.getattr)))).
    reflexivity.
Defined.

(** X16. A formula without sign characters and the [Composition] of plain
    elements parsed from it are interchangeable as arguments of
    [get_pymatgen_descriptor]: both give the same series or the same
    exception, for every property. *)
Theorem formula_and_composition_agree :
  forall (Composition_of_formula : string -> result Composition)
         (Element : string -> result string) (X : string -> Q)
         (getattr : string -> string -> option attribute)
         (formula : string) (c : Composition) (sym : string)
         (rest : list (string * option Z)) (property_name : string),
    PyStr.contains "+" formula = false ->
    PyStr.contains "-" formula = false ->
    Composition_of_formula formula = Ok c ->
    elements c = (sym, None) :: rest ->
    get_pymatgen_descriptor Composition_of_formula Element X getattr
      (AsString formula) property_name
    = get_pymatgen_descriptor Composition_of_formula Element X getattr
        (AsComposition c) property_name.
Proof.
  intros Cof El X getattr formula c sym rest property_name Hp Hm Hc He.
  unfold get_pymatgen_descriptor.
  rewrite (@resolve_plain_formula Cof El formula c Hp Hm Hc).
  now rewrite (@resolve_plain_composition Cof El c sym rest He).
Qed.

Lemma formula_and_composition_agree_witness :
  get_pymatgen_descriptor Samples.Composition_of_formula Samples.Element
    Samples.X Samples.getattr (AsString "NaCl") "X"
  = get_pymatgen_descriptor Samples.Composition_of_formula Samples.Element
      Samples.X Samples.getattr (AsComposition Samples.NaCl) "X".
Proof.
  apply (@formula_and_composition_agree Samples.Composition_of_formula Samples.Element
           Samples.X Samples.getattr "NaCl"%string Samples.NaCl "Na"%string
           [("Cl"%string, None)] "X"%string); reflexivity.
Defined.

(** ** get_composition_oxidation_state on annotated formulas *)

Section StringFacts.
Import PyStr.
Local Open Scope string_scope.

Lemma string_append_assoc (a b c : string) : (a ++ b) ++ c = a ++ (b ++ c).
Proof. induction a as [|x a IH]; simpl; [reflexivity | now rewrite IH]. Qed.

Lemma string_append_nil_r (a : string) : a ++ "" = a.
Proof. induction a as [|x a IH]; simpl; [reflexivity | now rewrite IH]. Qed.

Lemma string_concat_cons (x : string) (xs : list string) :
  String.concat "" (x :: xs) = x ++ String.concat "" xs.
Proof. destruct xs; simpl; [now rewrite string_append_nil_r | reflexivity]. Qed.

Lemma rev_acc_append (s acc : string) : rev_acc s acc = rev s ++ acc.
Proof.
  unfold rev. revert acc. induction s as [|x s IH]; intros acc; simpl; [reflexivity|].
  rewrite IH, (IH (String x "")), string_append_assoc. reflexivity.
Qed.

Lemma string_rev_append (a b : string) : rev (a ++ b) = rev b ++ rev a.
Proof.
  induction a as [|x a IH]; simpl.
  - now rewrite string_append_nil_r.
  - unfold rev in *. simpl. rewrite rev_acc_append, (rev_acc_append a).
    unfold rev. rewrite IH. now rewrite string_append_assoc.
Qed.

Lemma string_rev_involutive (s : string) : rev (rev s) = s.
Proof.
  induction s as [|x s IH]; [reflexivity|].
  change (String x s) with (String x "" ++ s) at 1.
  rewrite string_rev_append, string_rev_append, IH. reflexivity.
Qed.

Lemma rev_rev_acc (s : string) : rev (rev_acc s "") = s.
Proof. apply string_rev_involutive. Qed.

Lemma all_chars_impl (p q : ascii -> bool) (s : string) :
  (forall c, p c = true -> q c = true) ->
  all_chars p s = true -> all_chars q s = true.
Proof.
  intros Hpq. induction s as [|x s IH]; simpl; [reflexivity|].
  intros H. apply andb_true_iff in H as [Hx Hs].
  now rewrite (Hpq x Hx), IH.
Qed.

Lemma all_chars_append (p : ascii -> bool) (a b : string) :
  all_chars p (a ++ b) = all_chars p a && all_chars p b.
Proof.
  induction a as [|x a IH]; simpl; [reflexivity|]. now rewrite IH, andb_assoc.
Qed.

Lemma all_chars_rev (p : ascii -> bool) (s : string) :
  all_chars p (rev s) = all_chars p s.
Proof.
  induction s as [|x s IH]; [reflexivity|].
  change (String x s) with (String x "" ++ s) at 1.
  rewrite string_rev_append, all_chars_append, IH. simpl.
  now rewrite andb_true_r, andb_comm.
Qed.

Lemma all_digits_all_chars (s : string) : all_digits s = all_chars is_digit s.
Proof. induction s as [|x s IH]; simpl; [reflexivity | now rewrite IH]. Qed.

Lemma lstrip_no_space (s : string) :
  all_chars (fun c => negb (is_space c)) s = true -> lstrip s = s.
Proof.
  destruct s as [|x s]; simpl; [reflexivity|].
  intros H. apply andb_true_iff in H as [Hx _].
  apply negb_true_iff in Hx. now rewrite Hx.
Qed.

Lemma strip_no_space (s : string) :
  all_chars (fun c => negb (is_space c)) s = true -> strip s = s.
Proof.
  intros H. unfold strip. rewrite (lstrip_no_space _ H).
  rewrite lstrip_no_space by now rewrite all_chars_rev.
  apply string_rev_involutive.
Qed.

Lemma contains_append (c : ascii) (a b : string) :
  contains c (a ++ b) = contains c a || contains c b.
Proof.
  induction a as [|x a IH]; simpl; [reflexivity|]. now rewrite IH, orb_assoc.
Qed.

Lemma contains_none (p : ascii -> bool) (c : ascii) (s : string) :
  p c = false -> all_chars p s = true -> contains c s = false.
Proof.
  intros Hc. induction s as [|x s IH]; simpl; [reflexivity|].
  intros H. apply andb_true_iff in H as [Hx Hs]. rewrite (IH Hs), orb_false_r.
  destruct (Ascii.eqb_spec c x) as [->|_]; [congruence | reflexivity].
Qed.

(** The character classes are disjoint. *)
Lemma alpha_class (c : ascii) :
  is_alpha c = true -> is_digit c = false /\ is_sign c = false /\ is_space c = false.
Proof.
  destruct c as [[] [] [] [] [] [] [] []]; vm_compute; intros H; try discriminate H;
    repeat split.
Qed.

Lemma digit_class (c : ascii) :
  is_digit c = true -> is_alpha c = false /\ is_sign c = false /\ is_space c = false.
Proof.
  destruct c as [[] [] [] [] [] [] [] []]; vm_compute; intros H; try discriminate H;
    repeat split.
Qed.

Lemma sign_class (c : ascii) :
  is_sign c = true -> is_alpha c = false /\ is_digit c = false /\ is_space c = false.
Proof.
  destruct c as [[] [] [] [] [] [] [] []]; vm_compute; intros H; try discriminate H;
    repeat split.
Qed.

Section Splits.
Variable cls : ascii -> bool.

Lemma split_runs_in_run (run rest cur : string) :
  all_chars cls run = true ->
  re_split_runs_aux cls (run ++ rest) cur true = re_split_runs_aux cls rest cur true.
Proof.
  induction run as [|x run IH]; simpl; [reflexivity|].
  intros H. apply andb_true_iff in H as [Hx Hrun]. rewrite Hx. now apply IH.
Qed.

Lemma split_runs_run (run rest cur : string) :
  run <> "" -> all_chars cls run = true ->
  re_split_runs_aux cls (run ++ rest) cur false
  = rev cur :: re_split_runs_aux cls rest "" true.
Proof.
  destruct run as [|x run]; [congruence|]. intros _ H. simpl in *.
  apply andb_true_iff in H as [Hx Hrun]. rewrite Hx. f_equal.
  now apply split_runs_in_run.
Qed.

Lemma split_runs_word (w rest cur : string) (b : bool) :
  w <> "" -> all_chars (fun c => negb (cls c)) w = true ->
  re_split_runs_aux cls (w ++ rest) cur b
  = re_split_runs_aux cls rest (rev_acc w cur) false.
Proof.
  revert cur b. induction w as [|x w IH]; [congruence|]. intros cur b _ H. simpl in *.
  apply andb_true_iff in H as [Hx Hw]. apply negb_true_iff in Hx. rewrite Hx.
  destruct w as [|y w]; [reflexivity|].
  now apply IH.
Qed.

Lemma split_runs_word_or_empty (w rest cur : string) :
  all_chars (fun c => negb (cls c)) w = true ->
  re_split_runs_aux cls (w ++ rest) cur false
  = re_split_runs_aux cls rest (rev_acc w cur) false.
Proof.
  destruct w as [|x w]; [reflexivity|]. intros H. now apply split_runs_word.
Qed.

Lemma split_each_word (w rest cur : string) :
  all_chars (fun c => negb (cls c)) w = true ->
  re_split_each_aux cls (w ++ rest) cur = re_split_each_aux cls rest (rev_acc w cur).
Proof.
  revert cur. induction w as [|x w IH]; intros cur H; simpl in *; [reflexivity|].
  apply andb_true_iff in H as [Hx Hw]. apply negb_true_iff in Hx. rewrite Hx.
  now apply IH.
Qed.

Lemma split_each_head (s cur : string) :
  all_chars cls s = true ->
  first_item (re_split_each_aux cls s cur) = Ok (rev cur).
Proof.
  destruct s as [|x s]; simpl; [reflexivity|].
  intros H. apply andb_true_iff in H as [Hx _]. now rewrite Hx.
Qed.
Lemma split_runs_word_end (w cur : string) (b : bool) :
  w <> "" -> all_chars (fun c => negb (cls c)) w = true ->
  re_split_runs_aux cls w cur b = [rev (rev_acc w cur)].
Proof.
  intros Hne H. rewrite <- (string_append_nil_r w) at 1.
  now rewrite split_runs_word.
Qed.

Lemma split_runs_run_end (run cur : string) :
  run <> "" -> all_chars cls run = true ->
  re_split_runs_aux cls run cur false = [rev cur; ""].
Proof.
  intros Hne H. rewrite <- (string_append_nil_r run).
  now rewrite split_runs_run.
Qed.
End Splits.

Lemma strip_prefix_append (p s : string) : strip_prefix p (p ++ s) = Some s.
Proof.
  induction p as [|x p IH]; simpl; [now destruct s|].
  now rewrite Ascii.eqb_refl.
Qed.

Lemma split_once_eq (sep s : string) :
  split_once sep s
  = match strip_prefix sep s with
    | Some rest => Some ("", rest)
    | None =>
        match s with
        | "" => None
        | String c s' =>
            match split_once sep s' with
            | Some (before, rest) => Some (String c before, rest)
            | None => None
            end
        end
    end.
Proof. destruct s; reflexivity. Qed.

Lemma split_once_leftmost (sg : ascii) (st w rest : string) :
  is_sign sg = true ->
  all_chars (fun c => negb (is_sign c)) w = true ->
  split_once (String sg st) (w ++ String sg st ++ rest) = Some (w, rest).
Proof.
  intros Hsg. induction w as [|x w IH]; intros H.
  - rewrite split_once_eq.
    change ("" ++ String sg st ++ rest) with (String sg st ++ rest).
    now rewrite strip_prefix_append.
  - simpl in H. apply andb_true_iff in H as [Hx Hw]. apply negb_true_iff in Hx.
    rewrite split_once_eq.
    change (String x w ++ String sg st ++ rest)
      with (String x (w ++ String sg st ++ rest)).
    cbn [strip_prefix].
    destruct (Ascii.eqb_spec sg x) as [->|_]; [congruence|].
    now rewrite (IH Hw).
Qed.
End StringFacts.

Section AnnotatedFormulaFacts.
Import PyStr.
Local Open Scope string_scope.
Variable Composition_of_formula : string -> result Composition.
Variable Element : string -> result string.

Lemma term_sign_is_sign t : is_sign (term_sign t) = true.
Proof. unfold term_sign. now destruct (term_negative t). Qed.

Lemma digits_no_space s :
  all_digits s = true -> all_chars (fun c => negb (is_space c)) s = true.
Proof.
  rewrite all_digits_all_chars. apply all_chars_impl.
  intros c Hc. apply digit_class in Hc as [_ [_ Hc]]. now rewrite Hc.
Qed.

Lemma digits_no_sign s :
  all_digits s = true -> all_chars (fun c => negb (is_sign c)) s = true.
Proof.
  rewrite all_digits_all_chars. apply all_chars_impl.
  intros c Hc. apply digit_class in Hc as [_ [Hc _]]. now rewrite Hc.
Qed.

Lemma digits_no_alpha s :
  all_digits s = true -> all_chars (fun c => negb (is_alpha c)) s = true.
Proof.
  rewrite all_digits_all_chars. apply all_chars_impl.
  intros c Hc. apply digit_class in Hc as [Hc _]. now rewrite Hc.
Qed.

Lemma alpha_no_space s :
  all_chars is_alpha s = true -> all_chars (fun c => negb (is_space c)) s = true.
Proof.
  apply all_chars_impl.
  intros c Hc. apply alpha_class in Hc as [_ [_ Hc]]. now rewrite Hc.
Qed.

Lemma alpha_no_sign s :
  all_chars is_alpha s = true -> all_chars (fun c => negb (is_sign c)) s = true.
Proof.
  apply all_chars_impl.
  intros c Hc. apply alpha_class in Hc as [_ [Hc _]]. now rewrite Hc.
Qed.

Lemma alpha_no_digit s :
  all_chars is_alpha s = true -> all_chars (fun c => negb (is_digit c)) s = true.
Proof.
  apply all_chars_impl.
  intros c Hc. apply alpha_class in Hc as [Hc _]. now rewrite Hc.
Qed.

Lemma annotation_no_space t :
  well_formed_term t ->
  all_chars (fun c => negb (is_space c)) (term_annotation t) = true.
Proof.
  intros (_ & _ & _ & _ & Hst). unfold term_annotation. simpl.
  rewrite (digits_no_space _ Hst), andb_true_r.
  destruct (sign_class (term_sign t) (term_sign_is_sign t)) as [_ [_ H]]. now rewrite H.
Qed.

Lemma annotation_no_alpha t :
  well_formed_term t ->
  all_chars (fun c => negb (is_alpha c)) (term_annotation t) = true.
Proof.
  intros (_ & _ & _ & _ & Hst). unfold term_annotation. simpl.
  rewrite (digits_no_alpha _ Hst), andb_true_r.
  destruct (sign_class (term_sign t) (term_sign_is_sign t)) as [H _]. now rewrite H.
Qed.

Lemma segment_no_space t :
  well_formed_term t ->
  all_chars (fun c => negb (is_space c)) (term_segment t) = true.
Proof.
  intros Hwf. unfold term_segment. rewrite all_chars_append.
  rewrite (@annotation_no_space t Hwf), andb_true_r.
  destruct Hwf as (_ & _ & Ham & _). now apply digits_no_space.
Qed.

Lemma segment_no_alpha t :
  well_formed_term t ->
  all_chars (fun c => negb (is_alpha c)) (term_segment t) = true.
Proof.
  intros Hwf. unfold term_segment. rewrite all_chars_append.
  rewrite (@annotation_no_alpha t Hwf), andb_true_r.
  destruct Hwf as (_ & _ & Ham & _). now apply digits_no_alpha.
Qed.

Lemma segment_nonempty t : term_segment t <> "".
Proof. unfold term_segment, term_annotation. now destruct (term_amount t). Qed.

Lemma plain_no_sign t :
  well_formed_term t ->
  all_chars (fun c => negb (is_sign c)) (term_plain t) = true.
Proof.
  intros (_ & Hsym & Ham & _). unfold term_plain. rewrite all_chars_append.
  now rewrite (alpha_no_sign _ Hsym), (digits_no_sign _ Ham).
Qed.

Lemma plain_no_space t :
  well_formed_term t ->
  all_chars (fun c => negb (is_space c)) (term_plain t) = true.
Proof.
  intros (_ & Hsym & Ham & _). unfold term_plain. rewrite all_chars_append.
  now rewrite (alpha_no_space _ Hsym), (digits_no_space _ Ham).
Qed.

Lemma formula_of_cons t ts :
  formula_of (t :: ts)
  = term_symbol t ++ (term_segment t ++ formula_of ts).
Proof.
  unfold formula_of. cbn [map]. rewrite string_concat_cons.
  unfold term_text, term_plain, term_segment.
  now rewrite !string_append_assoc.
Qed.

Lemma formula_of_cons_plain t ts :
  formula_of (t :: ts) = term_plain t ++ (term_annotation t ++ formula_of ts).
Proof.
  unfold formula_of. cbn [map]. rewrite string_concat_cons.
  unfold term_text. now rewrite !string_append_assoc.
Qed.

(** The pieces of an annotated formula between its runs of letters. *)
Lemma non_alphabets_of_terms terms rest pieces :
  Forall well_formed_term terms ->
  (forall cur, re_split_runs_aux is_alpha rest cur false = rev cur :: pieces) ->
  forall cur,
    re_split_runs_aux is_alpha (formula_of terms ++ rest) cur false
    = rev cur :: (map term_segment terms ++ pieces)%list.
Proof.
  intros Hwf Hrest. induction Hwf as [|t ts Ht Hts IH]; intros cur.
  - exact (Hrest cur).
  - rewrite formula_of_cons, !string_append_assoc.
    destruct Ht as (Hne & Hsym & Hrestt).
    rewrite split_runs_run by assumption. f_equal.
    rewrite split_runs_word;
      [| apply segment_nonempty | apply segment_no_alpha; repeat split; tauto].
    rewrite IH. now rewrite rev_acc_append, string_append_nil_r, string_rev_involutive.
Qed.

(** The annotation read off one segment. *)
Lemma segment_of_term t :
  well_formed_term t ->
  segment_oxidation_state (term_segment t) = Ok (Some (term_annotation t)).
Proof.
  intros Hwf. unfold segment_oxidation_state.
  rewrite (strip_no_space _ (@segment_no_space t Hwf)).
  destruct Hwf as (_ & _ & Ham & Hst_ne & Hst).
  assert (Hnonempty : (term_segment t =? "") = false)
    by (apply String.eqb_neq, segment_nonempty).
  assert (Hsign : contains "+" (term_segment t) || contains "-" (term_segment t) = true).
  { unfold term_segment, term_annotation, term_sign. rewrite !contains_append.
    destruct (term_negative t); simpl; rewrite ?orb_true_r; reflexivity. }
  rewrite Hnonempty, Hsign. cbn [negb andb].
  assert (Hsg : is_digit (term_sign t) = false)
    by (destruct (sign_class (term_sign t) (term_sign_is_sign t)) as [_ [H _]];
        exact H).
  assert (Hdigits : re_split_runs is_sign (term_segment t)
                    = [term_amount t; term_state t]).
  { unfold re_split_runs, term_segment, term_annotation.
    rewrite split_runs_word_or_empty by now apply digits_no_sign.
    cbn [re_split_runs_aux]. rewrite term_sign_is_sign.
    rewrite split_runs_word_end; [| assumption | now apply digits_no_sign].
    now rewrite !rev_rev_acc. }
  assert (Hsigns : filter (fun x => negb (x =? ""))
                          (map strip (re_split_runs is_digit (term_segment t)))
                   = [String (term_sign t) ""]).
  { assert (Htail : forall b,
               re_split_runs_aux is_digit (term_annotation t) "" b
               = [String (term_sign t) ""; ""]).
    { intros b. unfold term_annotation.
      cbn [re_split_runs_aux]. rewrite Hsg.
      rewrite split_runs_run_end;
        [| assumption | now rewrite <- all_digits_all_chars].
      reflexivity. }
    unfold re_split_runs, term_segment.
    destruct (term_amount t) as [|x am] eqn:Eam.
    - change ("" ++ term_annotation t) with (term_annotation t).
      rewrite Htail. unfold term_sign. now destruct (term_negative t).
    - rewrite split_runs_run;
        [| discriminate | now rewrite <- all_digits_all_chars].
      rewrite Htail. unfold term_sign. now destruct (term_negative t). }
  rewrite Hdigits, Hsigns. cbn [last_item List.rev app bind].
  rewrite (strip_no_space _ (digits_no_space _ Hst)). reflexivity.
Qed.

Lemma collect_of_terms terms pieces :
  Forall well_formed_term terms ->
  Forall (fun p => contains "+" p = false) pieces ->
  Forall (fun p => contains "-" p = false) pieces ->
  forall acc,
    for_each (fun acc na =>
                o <- segment_oxidation_state na ;;
                Ok (match o with Some oxs => (acc ++ [oxs])%list | None => acc end))
             (map term_segment terms ++ pieces)%list acc
    = Ok (acc ++ map term_annotation terms)%list.
Proof.
  intros Hwf Hp Hm. induction Hwf as [|t ts Ht Hts IH]; intros acc.
  - cbn [map app]. rewrite app_nil_r. now apply collect_without_sign.
  - cbn [map app for_each]. rewrite (@segment_of_term t Ht). cbn [bind].
    rewrite IH. now rewrite <- app_assoc.
Qed.

Lemma fragments_of_terms terms rest :
  Forall well_formed_term terms ->
  plain_fragments (formula_of terms ++ rest) (map term_annotation terms)
  = Ok (map term_plain terms).
Proof.
  induction 1 as [|t ts Ht Hts IH]; [reflexivity|].
  cbn [map plain_fragments]. unfold split_around.
  assert (Hne : (term_annotation t =? "") = false) by now apply String.eqb_neq.
  rewrite Hne, formula_of_cons_plain, !string_append_assoc.
  change (term_annotation t) with (String (term_sign t) (term_state t)).
  rewrite (@split_once_leftmost (term_sign t) (term_state t) (term_plain t)
             (formula_of ts ++ rest) (term_sign_is_sign t) (@plain_no_sign t Ht)).
  cbn [bind]. now rewrite IH.
Qed.

Lemma record_state_of_term t d :
  well_formed_term t ->
  record_state Element d (term_plain t, term_annotation t)
  = (k <- Element (term_symbol t) ;; Ok (dict_set k (term_value t) d)).
Proof.
  intros Hwf. unfold record_state.
  rewrite (strip_no_space _ (@plain_no_space t Hwf)).
  pose proof (@annotation_no_space t Hwf) as Hann.
  destruct Hwf as (_ & Hsym & Ham & Hst_ne & Hst).
  assert (Hel : first_item (re_split_each is_digit (term_plain t))
                = Ok (term_symbol t)).
  { unfold re_split_each, term_plain.
    rewrite split_each_word by now apply alpha_no_digit.
    rewrite split_each_head by now rewrite <- all_digits_all_chars.
    now rewrite rev_rev_acc. }
  assert (Hint : int_of_string (term_annotation t) = Ok (term_value t)).
  { unfold int_of_string. rewrite (strip_no_space _ Hann).
    unfold term_annotation, term_sign, term_value, parse_digits.
    destruct (term_state t) as [|x st]; [congruence|].
    rewrite Hst. now destruct (term_negative t). }
  rewrite Hel, Hint. reflexivity.
Qed.

Lemma states_of_terms terms :
  Forall well_formed_term terms ->
  forall d,
    for_each (record_state Element)
             (combine (map term_plain terms) (map term_annotation terms)) d
    = for_each (fun d t => k <- Element (term_symbol t) ;;
                           Ok (dict_set k (term_value t) d)) terms d.
Proof.
  induction 1 as [|t ts Ht Hts IH]; intros d; [reflexivity|].
  cbn [map combine for_each]. rewrite (@record_state_of_term t d Ht).
  destruct (Element (term_symbol t)); cbn [bind]; [apply IH | reflexivity].
Qed.

(** The parser on an annotated formula followed by text without signs
    that starts with a letter, or by nothing. *)
Lemma parse_annotated terms rest pieces :
  Forall well_formed_term terms ->
  terms <> [] ->
  (forall cur, re_split_runs_aux is_alpha rest cur false = rev cur :: pieces) ->
  Forall (fun p => contains "+" p = false) pieces ->
  Forall (fun p => contains "-" p = false) pieces ->
  get_composition_oxidation_state Composition_of_formula Element
    (formula_of terms ++ rest)
  = (d <- states_of Element terms ;;
     c <- Composition_of_formula (plain_formula_of terms) ;;
     Ok (c, d)).
Proof.
  intros Hwf Hne Hrest Hp Hm. unfold get_composition_oxidation_state, re_split_runs.
  rewrite (@non_alphabets_of_terms terms rest pieces Hwf Hrest). cbn [rev rev_acc].
  unfold collect_oxidation_states. cbn [for_each].
  change (segment_oxidation_state "") with (@Ok (option string) None). cbn [bind].
  rewrite (@collect_of_terms terms pieces Hwf Hp Hm). cbn [app bind].
  destruct terms as [|t ts]; [congruence|].
  remember (t :: ts) as terms eqn:E.
  assert (Hann : exists a anns, map term_annotation terms = a :: anns)
    by (subst terms; now eexists; eexists).
  destruct Hann as [a [anns Hann]]. rewrite Hann, <- Hann.
  rewrite (@fragments_of_terms terms rest Hwf). cbn [bind].
  rewrite (@states_of_terms terms Hwf). reflexivity.
Qed.
End AnnotatedFormulaFacts.

(** X17. On a formula made of annotated terms, each an element symbol,
    optional amount digits, a sign and state digits,
    [get_composition_oxidation_state] records the signed state of every
    term under its element, in order, and parses the composition from the
    terms without their annotations; an exception of [Element] or of
    [Composition] is passed on. *)
Theorem annotated_formula_round_trip :
  forall (Composition_of_formula : string -> result Composition)
         (Element : string -> result string) (terms : list annotated_term),
    Forall well_formed_term terms ->
    get_composition_oxidation_state Composition_of_formula Element (formula_of terms)
    = (d <- states_of Element terms ;;
       c <- Composition_of_formula (plain_formula_of terms) ;;
       Ok (c, d)).
Proof.
  intros Cof El terms Hwf. destruct terms as [|t ts]; [reflexivity|].
  rewrite <- (string_append_nil_r (formula_of (t :: ts))) at 1.
  apply parse_annotated with (pieces := []).
  - assumption.
  - discriminate.
  - reflexivity.
  - constructor.
  - constructor.
Qed.

Lemma annotated_formula_round_trip_witness :
  get_composition_oxidation_state Samples.Composition_of_formula Samples.Element
    "Fe2+3O3-2"
  = Ok (Samples.Fe2O3, [("Fe"%string, 3%Z); ("O"%string, (-2)%Z)]).
Proof.
  apply (@annotated_formula_round_trip Samples.Composition_of_formula Samples.Element
           [mkTerm "Fe" "2" false "3"; mkTerm "O" "3" true "2"]).
  repeat constructor; discriminate.
Defined.

(** X18. Text after the last annotation is discarded: an annotated formula
    followed by text that starts with a letter and holds no sign is parsed
    as the annotated formula alone. *)
Theorem text_after_last_annotation_is_dropped :
  forall (Composition_of_formula : string -> result Composition)
         (Element : string -> result string) (terms : list annotated_term)
         (c : ascii) (tail : string),
    Forall well_formed_term terms ->
    terms <> [] ->
    PyStr.is_alpha c = true ->
    PyStr.contains "+" tail = false ->
    PyStr.contains "-" tail = false ->
    get_composition_oxidation_state Composition_of_formula Element
      (formula_of terms ++ String c tail)
    = get_composition_oxidation_state Composition_of_formula Element
        (formula_of terms).
Proof.
  intros Cof El terms c tail Hwf Hne Hc Hp Hm.
  rewrite <- (string_append_nil_r (formula_of terms)) at 2.
  rewrite (@parse_annotated Cof El terms "" [] Hwf Hne);
    [| reflexivity | constructor | constructor].
  apply parse_annotated with (pieces := PyStr.re_split_runs_aux PyStr.is_alpha tail "" true).
  - assumption.
  - assumption.
  - intros cur. cbn [PyStr.re_split_runs_aux]. now rewrite Hc.
  - now apply re_split_runs_aux_pieces.
  - now apply re_split_runs_aux_pieces.
Qed.

Lemma text_after_last_annotation_is_dropped_witness :
  get_composition_oxidation_state
    (fun formula => if String.eqb formula "Fe2"
                    then Ok (mkComposition [("Fe"%string, None)] [("Fe"%string, 2)] 2)
                    else Raise CompositionError)
    Samples.Element "Fe2+3O3"
  = Ok (mkComposition [("Fe"%string, None)] [("Fe"%string, 2)] 2, [("Fe"%string, 3%Z)]).
Proof.
  etransitivity.
  - apply (@text_after_last_annotation_is_dropped
             (fun formula => if String.eqb formula "Fe2"
                             then Ok (mkComposition [("Fe"%string, None)]
                                                    [("Fe"%string, 2)] 2)
                             else Raise CompositionError)
             Samples.Element [mkTerm "Fe" "2" false "3"] "O"%char "3"%string).
    + repeat constructor; discriminate.
    + discriminate.
    + reflexivity.
    + reflexivity.
    + reflexivity.
  - reflexivity.
Defined.

Lemma species_loop_mixed (l : list (string * option Z)) :
  (exists s, In (s, None) l) ->
  forall d,
    for_each (fun d sp =>
                match snd sp with
                | Some o => Ok (dict_set (fst sp) o d)
                | None => Raise AttributeError
                end) l d
    = Raise AttributeError.
Proof.
  induction l as [|[s' [o'|]] l IH]; intros [s Hin] d.
  - destruct Hin.
  - cbn [for_each snd fst bind]. apply IH.
    destruct Hin as [E|Hin]; [discriminate E | now exists s].
  - reflexivity.
Qed.

(** X19. A [Composition] whose first species carries an oxidation state
    while another one is a plain element makes [get_pymatgen_descriptor]
    raise [AttributeError], whatever the property. *)
Theorem mixed_species_raise :
  forall (Composition_of_formula : string -> result Composition)
         (Element : string -> result string) (X : string -> Q)
         (getattr : string -> string -> option attribute)
         (c : Composition) (sym : string) (o : Z)
         (rest : list (string * option Z)) (property_name : string),
    elements c = (sym, Some o) :: rest ->
    (exists s, In (s, None) rest) ->
    get_pymatgen_descriptor Composition_of_formula Element X getattr
      (AsComposition c) property_name
    = Raise AttributeError.
Proof.
  intros Cof El X getattr c sym o rest property_name He [s Hin].
  unfold get_pymatgen_descriptor, resolve, species_oxidation_states.
  rewrite He. cbn [py_index]. cbn.
  rewrite species_loop_mixed; [reflexivity | now exists s].
Qed.

Lemma mixed_species_raise_witness :
  get_pymatgen_descriptor Samples.Composition_of_formula Samples.Element
    Samples.X Samples.getattr
    (AsComposition
       (mkComposition [("Fe"%string, Some 3%Z); ("O"%string, None)]
                      [("Fe"%string, 2); ("O"%string, 3)] 5))
    "X"
  = Raise AttributeError.
Proof.
  apply (@mixed_species_raise Samples.Composition_of_formula Samples.Element
           Samples.X Samples.getattr
           (mkComposition [("Fe"%string, Some 3%Z); ("O"%string, None)]
                          [("Fe"%string, 2); ("O"%string, 3)] 5)
           "Fe"%string 3%Z [("O"%string, None)] "X"%string).
  - reflexivity.
  - exists "O"%string. now left.
Defined.
